(** * Log playback: replay of a time-indexed state log (gz-sim, LogPlayback.cc)

    A shallow embedding of [src/systems/log/LogPlayback.cc].  The playback
    system object ([LogPlaybackPrivate]) is a record that is passed through
    every member function; the process-wide flag [started] is passed next to
    it.  The collaborators that live outside the file (filesystem, transport
    log, path utilities) are operations of a type class; the entity-component
    manager is modelled after its description in the specification. *)

From Stdlib Require Import ZArith NArith Ascii String.
From stdpp Require Import gmap strings list fin_maps fin_sets.

Local Open Scope Z_scope.

Set Warnings "-clear-no-such-hyp".

(** ** std::string operations used by the source *)

Module StdString.

(** [s.size()] *)
Definition size (s : string) : nat := String.length s.

(** [s.substr(pos)]; the source only calls it with [pos <= s.size()]. *)
Definition substr (s : string) (pos : nat) : string :=
  String.substring pos (size s - pos) s.

(** [s.compare(pos, len, t) == 0]: the [len] characters of [s] from [pos]
    (fewer when [s] ends before) are exactly [t]. *)
Definition compare_eq0 (s : string) (pos len : nat) (t : string) : bool :=
  String.eqb (String.substring pos (Nat.min len (size s - pos)) s) t.

(** [s[0]]; for the empty string C++ yields the terminating NUL. *)
Definition front (s : string) : ascii :=
  match s with
  | EmptyString => Ascii.zero
  | String c _ => c
  end.

(** [s.empty()] *)
Definition empty (s : string) : bool :=
  match s with EmptyString => true | _ => false end.

(** [s.find_last_of(c)], [None] for [npos]. *)
Fixpoint find_last_of (s : string) (c : ascii) : option nat :=
  match s with
  | EmptyString => None
  | String d s' =>
      match find_last_of s' c with
      | Some i => Some (S i)
      | None => if Ascii.eqb d c then Some O else None
      end
  end.

End StdString.

(** ** Data carried by the log and by the world *)

(** [Entity] is a 64-bit unsigned identifier. *)
Definition Entity := N.

(** [std::chrono::steady_clock::duration], a signed count of nanoseconds. *)
Definition duration := Z.

(** [sdf::Mesh]: the URI and the remaining fields. *)
Record Mesh := mkMesh { meshUri : string; meshOther : string }.

(** [sdf::Geometry]: a mesh shape when [Type() == MESH], any other shape
    otherwise. *)
Inductive Geometry :=
| MeshGeometry (meshShape : Mesh)
| OtherGeometry (shape : string).

(** [sdf::Material]: the script URI and the remaining fields. *)
Record Material := mkMaterial { scriptUri : string; materialOther : string }.

(** [msgs::LogPlaybackStatistics] *)
Record LogPlaybackStatistics :=
  mkLogStats { stats_start_time : duration; stats_end_time : duration }.

(** Component type keys.  The numeric ids are assigned by the component
    registry; only their being distinct matters here. *)
Inductive ComponentTypeId :=
| TWorld
| TLogPlaybackStatistics
| TGeometry
| TMaterial
| TParticleEmitterCmd
| TOther (tag : N).

(** Component payloads. *)
Inductive ComponentValue :=
| CWorld
| CLogPlaybackStatistics (stats : LogPlaybackStatistics)
| CGeometry (g : Geometry)
| CMaterial (m : Material)
| CParticleEmitterCmd (emitting : bool)
| COther (tag : N) (payload : string).

Definition typeId (v : ComponentValue) : ComponentTypeId :=
  match v with
  | CWorld => TWorld
  | CLogPlaybackStatistics _ => TLogPlaybackStatistics
  | CGeometry _ => TGeometry
  | CMaterial _ => TMaterial
  | CParticleEmitterCmd _ => TParticleEmitterCmd
  | COther tag _ => TOther tag
  end.

#[global] Instance Mesh_eq_dec : EqDecision Mesh.
Proof. solve_decision. Defined.
#[global] Instance Geometry_eq_dec : EqDecision Geometry.
Proof. solve_decision. Defined.
#[global] Instance Material_eq_dec : EqDecision Material.
Proof. solve_decision. Defined.
#[global] Instance LogPlaybackStatistics_eq_dec : EqDecision LogPlaybackStatistics.
Proof. solve_decision. Defined.
#[global] Instance ComponentTypeId_eq_dec : EqDecision ComponentTypeId.
Proof. solve_decision. Defined.
#[global] Instance ComponentValue_eq_dec : EqDecision ComponentValue.
Proof. solve_decision. Defined.

Definition ComponentTypeId_code (t : ComponentTypeId) : nat + N :=
  match t with
  | TWorld => inl 0%nat
  | TLogPlaybackStatistics => inl 1%nat
  | TGeometry => inl 2%nat
  | TMaterial => inl 3%nat
  | TParticleEmitterCmd => inl 4%nat
  | TOther tag => inr tag
  end.

Definition ComponentTypeId_decode (c : nat + N) : ComponentTypeId :=
  match c with
  | inl 0%nat => TWorld
  | inl 1%nat => TLogPlaybackStatistics
  | inl 2%nat => TGeometry
  | inl 3%nat => TMaterial
  | inl _ => TParticleEmitterCmd
  | inr tag => TOther tag
  end.

#[global] Instance ComponentTypeId_countable : Countable ComponentTypeId.
Proof.
  apply (inj_countable' ComponentTypeId_code ComponentTypeId_decode).
  by intros [].
Defined.

(** One component entry of a serialized entity.  A tag the registry does not
    know cannot be deserialized. *)
Inductive SerializedComponent :=
| Recognized (v : ComponentValue)
| Unrecognized (tag : N) (payload : string).

(** [msgs::SerializedEntity] / [msgs::SerializedEntityMap]: one diff record. *)
Record SerializedEntity := mkSerializedEntity {
  se_id : Entity;
  se_components : list SerializedComponent;
  se_remove : bool
}.

(** [msgs::SerializedState]: the entity records in order. *)
Definition SerializedState := list SerializedEntity.

(** [msgs::SerializedStateMap]: key/record pairs in iteration order.  The
    source reads the id from the record, not from the key. *)
Definition SerializedStateMap := list (N * SerializedEntity).

(** The payload of a log message.  The bytes are kept in parsed form. *)
Inductive MessageData :=
| StateData (msg : SerializedState)
| StateMapData (msg : SerializedStateMap)
| StringData (s : string).

(** [transport::log::Message]: type name and payload. *)
Record Message := mkMessage { Type_ : string; Data : MessageData }.

(** [msg.ParseFromString(iter->Data())] for the two state message kinds; a
    payload of another kind leaves the message empty. *)
Definition ParseSerializedState (d : MessageData) : SerializedState :=
  match d with StateData m => m | _ => [] end.

Definition ParseSerializedStateMap (d : MessageData) : SerializedStateMap :=
  match d with StateMapData m => m | _ => [] end.

(** ** The entity-component world *)

(** Modelled from the spec: the EntityComponentManager itself
    (gz/sim/EntityComponentManager.hh and its implementation) is not among the
    sources; §3, §4.2 and §6 of the specification describe it as a store of
    entities and of one component value per (entity, component type) slot, with
    deferred entity removal and a per-component "mark changed" operation.
    [ecm_entities] are the vertices of the entity graph, [ecm_toRemove] the
    entities whose removal has been requested and not yet carried out,
    [ecm_oneTimeChanges] the one-time change marks in the order they were
    made. *)
Record EntityComponentManager := mkECM {
  ecm_entities : gset Entity;
  ecm_components : gmap (Entity * ComponentTypeId) ComponentValue;
  ecm_toRemove : gset Entity;
  ecm_oneTimeChanges : list (Entity * ComponentTypeId);
  ecm_entityCreateOffset : Z
}.

Module ECM.

Definition set_components (ecm : EntityComponentManager)
    (c : gmap (Entity * ComponentTypeId) ComponentValue) : EntityComponentManager :=
  mkECM (ecm_entities ecm) c (ecm_toRemove ecm) (ecm_oneTimeChanges ecm)
        (ecm_entityCreateOffset ecm).

(** Modelled from the spec: [Entities().Vertices()], the identifiers of the
    entities currently in the world. *)
Definition Entities_Vertices (ecm : EntityComponentManager) : gset Entity :=
  ecm_entities ecm.

(** Modelled from the spec: [HasEntity]. *)
Definition HasEntity (ecm : EntityComponentManager) (e : Entity) : bool :=
  bool_decide (e ∈ ecm_entities ecm).

(** Modelled from the spec: entity creation under a given identifier
    ("creation is implicit on first diff mention"). *)
Definition CreateEntity (ecm : EntityComponentManager) (e : Entity) : EntityComponentManager :=
  mkECM ({[e]} ∪ ecm_entities ecm) (ecm_components ecm) (ecm_toRemove ecm)
        (ecm_oneTimeChanges ecm) (ecm_entityCreateOffset ecm).

(** Modelled from the spec: [RequestRemoveEntity], removal is scheduled
    ("deferred, not immediate"). *)
Definition RequestRemoveEntity (ecm : EntityComponentManager) (e : Entity) : EntityComponentManager :=
  mkECM (ecm_entities ecm) (ecm_components ecm) ({[e]} ∪ ecm_toRemove ecm)
        (ecm_oneTimeChanges ecm) (ecm_entityCreateOffset ecm).

(** Modelled from the spec: [SetChanged(entity, type, OneTimeChange)], the
    per-entity "mark changed" operation with the one-shot classification. *)
Definition SetChanged (ecm : EntityComponentManager) (e : Entity) (t : ComponentTypeId) : EntityComponentManager :=
  mkECM (ecm_entities ecm) (ecm_components ecm) (ecm_toRemove ecm)
        (ecm_oneTimeChanges ecm ++ [(e, t)]) (ecm_entityCreateOffset ecm).

(** Modelled from the spec: [SetEntityCreateOffset]. *)
Definition SetEntityCreateOffset (ecm : EntityComponentManager) (o : Z) : EntityComponentManager :=
  mkECM (ecm_entities ecm) (ecm_components ecm) (ecm_toRemove ecm)
        (ecm_oneTimeChanges ecm) o.

(** Modelled from the spec: [Component<T>(entity)], get component by
    (entity, type). *)
Definition Component (ecm : EntityComponentManager) (e : Entity) (t : ComponentTypeId) : option ComponentValue :=
  ecm_components ecm !! (e, t).

(** Modelled from the spec: set or create a component by (entity, type);
    "updates replace the payload wholesale". *)
Definition CreateComponent (ecm : EntityComponentManager) (e : Entity) (v : ComponentValue) : EntityComponentManager :=
  set_components ecm (<[(e, typeId v) := v]> (ecm_components ecm)).

(** Modelled from the spec: [Each<T>], iteration over the entities holding a
    component of type [t], in the store's order. *)
Definition Each (ecm : EntityComponentManager) (t : ComponentTypeId) : list (Entity * ComponentValue) :=
  omap (λ kv : (Entity * ComponentTypeId) * ComponentValue,
          if decide (kv.1.2 = t) then Some (kv.1.1, kv.2) else None)
       (map_to_list (ecm_components ecm)).

(** Modelled from the spec: [EntityByComponents(components::World())],
    query of an entity by component-value match; [None] is [kNullEntity]. *)
Definition EntityByComponents (ecm : EntityComponentManager) (v : ComponentValue) : option Entity :=
  fst <$> head (filter (λ ev : Entity * ComponentValue, ev.2 = v) (Each ecm (typeId v))).

(** Modelled from the spec: DiffApplier, §4.2.  A record marked as a removal
    schedules the entity for removal and writes no component; any other
    record creates the entity when it is not there yet and then, for each
    component change, replaces the value of an existing component or creates
    the component.  An unrecognized component tag is ignored. *)
Definition SetStateComponent (e : Entity) (ecm : EntityComponentManager) (c : SerializedComponent) : EntityComponentManager :=
  match c with
  | Recognized v => CreateComponent ecm e v
  | Unrecognized _ _ => ecm
  end.

Definition SetStateEntity (ecm : EntityComponentManager) (r : SerializedEntity) : EntityComponentManager :=
  if se_remove r then RequestRemoveEntity ecm (se_id r)
  else
    let ecm := if HasEntity ecm (se_id r) then ecm else CreateEntity ecm (se_id r) in
    foldl (SetStateComponent (se_id r)) ecm (se_components r).

Definition SetState (ecm : EntityComponentManager) (msg : SerializedState) : EntityComponentManager :=
  foldl SetStateEntity ecm msg.

Definition SetStateMap (ecm : EntityComponentManager) (msg : SerializedStateMap) : EntityComponentManager :=
  foldl SetStateEntity ecm msg.*2.

End ECM.

(** Modelled from the spec: [Component::SetData(data, eql)] (Component.hh is
    not among the sources), the "equality-aware setter": the payload is
    replaced and the result tells whether the new payload differs from the old
    one under [eql]. *)
Definition SetData {A : Type} (old data : A) (eql : A → A → bool) : bool * A :=
  (negb (eql data old), data).

(** ** Collaborators outside the file *)

(** The filesystem and path helpers of gz-common, the archive extraction of
    gz-fuel-tools and the message log of gz-transport.  [FS] is the state of
    the filesystem, [Log] a log handle. *)
Class Collaborators := {
  FS : Type;
  Log : Type;
  common_absPath : string → string;
  common_isFile : FS → string → bool;
  common_exists : FS → string → bool;
  common_joinPaths : string → string → string;
  common_lowercase : string → string;
  common_basename : string → string;
  common_uniqueDirectoryPath : FS → string → string;
  common_removeAll : FS → string → FS;
  Zip_Extract : FS → string → string → bool * FS;
  (** a default-constructed [transport::log::Log] *)
  Log_new : Log;
  Log_Open : FS → Log → string → bool * Log;
  (** [QueryMessages()] with the default options: every message *)
  Log_QueryAllMessages : Log → list Message;
  (** [QueryMessages(AllTopics({start, end}))] *)
  Log_QueryMessages : Log → duration → duration → list Message;
  Log_StartTime : Log → duration;
  Log_EndTime : Log → duration
}.

(** [UpdateInfo]: the fields the system reads. *)
Record UpdateInfo := mkUpdateInfo { simTime : duration; dt : duration }.

(** Signals sent through the event manager. *)
Inductive Event :=
| Pause (paused : bool).

#[global] Instance Event_eq_dec : EqDecision Event.
Proof. solve_decision. Defined.

(** [math::MAX_I64] *)
Definition MAX_I64 : Z := 9223372036854775807.

(** ** The playback system *)

Section LogPlayback.

Context `{C : Collaborators}.

(** [LogPlaybackPrivate], the data of one playback instance.  The static
    member [started] is process-wide and is passed separately. *)
Record LogPlaybackPrivate := mkPrivate {
  batch : list Message;
  log : option Log;
  logPath : string;
  extDest : string;
  instStarted : bool;
  printedEnd : bool;
  eventManager : option N;
  doReplaceResourceURIs : bool;
  prevParticleEmitterCmds : gmap Entity bool
}.

(** The members as the class initializes them. *)
Definition LogPlaybackPrivate_init : LogPlaybackPrivate :=
  mkPrivate [] None "" "" false false None true ∅.

Definition set_batch (this : LogPlaybackPrivate) (b : list Message) :=
  mkPrivate b (log this) (logPath this) (extDest this) (instStarted this)
    (printedEnd this) (eventManager this) (doReplaceResourceURIs this)
    (prevParticleEmitterCmds this).
Definition set_log (this : LogPlaybackPrivate) (l : option Log) :=
  mkPrivate (batch this) l (logPath this) (extDest this) (instStarted this)
    (printedEnd this) (eventManager this) (doReplaceResourceURIs this)
    (prevParticleEmitterCmds this).
Definition set_logPath (this : LogPlaybackPrivate) (p : string) :=
  mkPrivate (batch this) (log this) p (extDest this) (instStarted this)
    (printedEnd this) (eventManager this) (doReplaceResourceURIs this)
    (prevParticleEmitterCmds this).
Definition set_extDest (this : LogPlaybackPrivate) (p : string) :=
  mkPrivate (batch this) (log this) (logPath this) p (instStarted this)
    (printedEnd this) (eventManager this) (doReplaceResourceURIs this)
    (prevParticleEmitterCmds this).
Definition set_instStarted (this : LogPlaybackPrivate) (b : bool) :=
  mkPrivate (batch this) (log this) (logPath this) (extDest this) b
    (printedEnd this) (eventManager this) (doReplaceResourceURIs this)
    (prevParticleEmitterCmds this).
Definition set_eventManager (this : LogPlaybackPrivate) (m : option N) :=
  mkPrivate (batch this) (log this) (logPath this) (extDest this)
    (instStarted this) (printedEnd this) m (doReplaceResourceURIs this)
    (prevParticleEmitterCmds this).
Definition set_doReplaceResourceURIs (this : LogPlaybackPrivate) (b : bool) :=
  mkPrivate (batch this) (log this) (logPath this) (extDest this)
    (instStarted this) (printedEnd this) (eventManager this) b
    (prevParticleEmitterCmds this).
Definition set_prevParticleEmitterCmds (this : LogPlaybackPrivate) (m : gmap Entity bool) :=
  mkPrivate (batch this) (log this) (logPath this) (extDest this)
    (instStarted this) (printedEnd this) (eventManager this)
    (doReplaceResourceURIs this) m.

(** *** LogPlaybackPrivate::Parse (both overloads) *)

Definition Parse_State (ecm : EntityComponentManager) (msg : SerializedState) : EntityComponentManager :=
  ECM.SetState ecm msg.

Definition Parse_StateMap (ecm : EntityComponentManager) (msg : SerializedStateMap) : EntityComponentManager :=
  ECM.SetStateMap ecm msg.

(** *** LogPlaybackPrivate::PrependLogPath *)

Definition filePrefix : string := "file://".

Definition PrependLogPath (fs : FS) (this : LogPlaybackPrivate) (_uri : string)
    : string * LogPlaybackPrivate :=
  if negb (doReplaceResourceURIs this) then (_uri, this)
  else if (StdString.compare_eq0 _uri 0 (StdString.size filePrefix) filePrefix
           && negb (StdString.compare_eq0
                      (StdString.substr _uri (StdString.size filePrefix))
                      0 (StdString.size (logPath this)) (logPath this)))
          || Ascii.eqb (StdString.front _uri) "/"
  then
    let pathNoPrefix :=
      if Ascii.eqb (StdString.front _uri) "/" then _uri
      else StdString.substr _uri (StdString.size filePrefix) in
    let pathPrepended := common_joinPaths (logPath this) pathNoPrefix in
    if negb (common_exists fs pathPrepended)
    then (_uri, set_doReplaceResourceURIs this false)
    else (filePrefix +:+ pathPrepended, this)
  else (_uri, this).

(** *** LogPlaybackPrivate::ReplaceResourceURIs *)

Definition uriEqual (_s1 _s2 : string) : bool := String.eqb _s1 _s2.

Definition geoUriEqual (_g1 _g2 : Geometry) : bool :=
  match _g1, _g2 with
  | MeshGeometry m1, MeshGeometry m2 => uriEqual (meshUri m1) (meshUri m2)
  | _, _ => false
  end.

Definition matUriEqual (_m1 _m2 : Material) : bool :=
  uriEqual (scriptUri _m1) (scriptUri _m2).

(** The body of the lambda passed to [Each<components::Geometry>]. *)
Definition geometryCallback (fs : FS)
    (st : LogPlaybackPrivate * EntityComponentManager)
    (ev : Entity * ComponentValue) : LogPlaybackPrivate * EntityComponentManager :=
  let '(this, ecm) := st in
  match ev.2 with
  | CGeometry (MeshGeometry mesh as geoSdf) =>
      let meshUri := meshUri mesh in
      if negb (StdString.empty meshUri) then
        let '(newMeshUri, this) := PrependLogPath fs this meshUri in
        let meshShape := mkMesh newMeshUri (meshOther mesh) in
        let '(_, data) := SetData geoSdf (MeshGeometry meshShape) geoUriEqual in
        (this, ECM.CreateComponent ecm ev.1 (CGeometry data))
      else (this, ecm)
  | _ => (this, ecm)
  end.

(** The body of the lambda passed to [Each<components::Material>]. *)
Definition materialCallback (fs : FS)
    (st : LogPlaybackPrivate * EntityComponentManager)
    (ev : Entity * ComponentValue) : LogPlaybackPrivate * EntityComponentManager :=
  let '(this, ecm) := st in
  match ev.2 with
  | CMaterial matSdf =>
      let matUri := scriptUri matSdf in
      if negb (StdString.empty matUri) then
        let '(newMatUri, this) := PrependLogPath fs this matUri in
        let '(_, data) :=
          SetData matSdf (mkMaterial newMatUri (materialOther matSdf)) matUriEqual in
        (this, ECM.CreateComponent ecm ev.1 (CMaterial data))
      else (this, ecm)
  | _ => (this, ecm)
  end.

Definition ReplaceResourceURIs (fs : FS) (this : LogPlaybackPrivate)
    (ecm : EntityComponentManager) : LogPlaybackPrivate * EntityComponentManager :=
  if negb (doReplaceResourceURIs this) then (this, ecm)
  else
    let st := foldl (geometryCallback fs) (this, ecm) (ECM.Each ecm TGeometry) in
    foldl (materialCallback fs) st (ECM.Each st.2 TMaterial).

(** *** LogPlaybackPrivate::Start *)

(** The loop that looks for the first state message and applies it. *)
Fixpoint seedInitialState (ecm : EntityComponentManager) (msgs : list Message)
    : EntityComponentManager :=
  match msgs with
  | [] => ecm
  | m :: rest =>
      if String.eqb (Type_ m) "gz.msgs.SerializedState"
      then Parse_State ecm (ParseSerializedState (Data m))
      else if String.eqb (Type_ m) "gz.msgs.SerializedStateMap"
      then Parse_StateMap ecm (ParseSerializedStateMap (Data m))
      else seedInitialState ecm rest
  end.

(** The result of a call that may touch the process-wide flag. *)
Record StartResult := mkStartResult {
  sr_ret : bool;
  sr_started : bool;
  sr_this : LogPlaybackPrivate;
  sr_ecm : EntityComponentManager
}.

Definition Start (fs : FS) (started : bool) (this : LogPlaybackPrivate)
    (ecm : EntityComponentManager) : StartResult :=
  if started then mkStartResult true started this ecm
  else if StdString.empty (logPath this) then mkStartResult false started this ecm
  else
    let dbPath := common_joinPaths (logPath this) "state.tlog" in
    if negb (common_exists fs dbPath) then mkStartResult false started this ecm
    else
      let '(_, lg) := Log_Open fs Log_new dbPath in
      let this := set_log this (Some lg) in
      let this := set_batch this (Log_QueryAllMessages lg) in
      let ecm := seedInitialState ecm (batch this) in
      let newLogStatComp :=
        CLogPlaybackStatistics (mkLogStats (Log_StartTime lg) (Log_EndTime lg)) in
      match ECM.EntityByComponents ecm CWorld with
      | None => mkStartResult false started this ecm
      | Some worldEntity =>
          let ecm :=
            match ECM.Component ecm worldEntity TLogPlaybackStatistics with
            | Some _ => ECM.CreateComponent ecm worldEntity newLogStatComp
            | None => ECM.CreateComponent ecm worldEntity newLogStatComp
            end in
          let '(this, ecm) := ReplaceResourceURIs fs this ecm in
          let this := set_instStarted this true in
          mkStartResult true true this ecm
      end.

(** *** LogPlaybackPrivate::ExtractStateAndResources *)

(** [s.substr(0, len)] where [len] may be [npos]. *)
Definition substr_to (s : string) (len : option nat) : string :=
  match len with
  | Some n => String.substring 0 (Nat.min n (StdString.size s)) s
  | None => s
  end.

Definition ExtractStateAndResources (fs : FS) (this : LogPlaybackPrivate)
    : bool * FS * LogPlaybackPrivate :=
  let this := set_extDest this (logPath this) in
  let extIdx := StdString.find_last_of (logPath this) "." in
  let this :=
    match extIdx with
    | Some _ => set_extDest this (substr_to (logPath this) extIdx)
    | None => this
    end in
  let this := set_extDest this (extDest this +:+ "_extracted") in
  let this := set_extDest this (common_uniqueDirectoryPath fs (extDest this)) in
  let '(ok, fs) := Zip_Extract fs (logPath this) (extDest this) in
  if ok then
    let this :=
      set_logPath this
        (common_joinPaths (extDest this)
           (common_basename (substr_to (logPath this) extIdx))) in
    (true, fs, this)
  else (false, fs, this).

(** *** LogPlayback::Configure *)

Record ConfigureResult := mkConfigureResult {
  cr_fs : FS;
  cr_started : bool;
  cr_this : LogPlaybackPrivate;
  cr_ecm : EntityComponentManager
}.

Definition startUnlessStarted (fs : FS) (started : bool) (this : LogPlaybackPrivate)
    (ecm : EntityComponentManager) : ConfigureResult :=
  if negb started then
    let r := Start fs started this ecm in
    mkConfigureResult fs (sr_started r) (sr_this r) (sr_ecm r)
  else mkConfigureResult fs started this ecm.

Definition Configure (fs : FS) (started : bool) (this : LogPlaybackPrivate)
    (playback_path : string) (_eventMgr : N) (ecm : EntityComponentManager)
    : ConfigureResult :=
  let this := set_logPath this playback_path in
  let this := set_eventManager this (Some _eventMgr) in
  let this := set_logPath this (common_absPath (logPath this)) in
  let ecm := ECM.SetEntityCreateOffset ecm (MAX_I64 / 2) in
  if common_isFile fs (logPath this) then
    let extension :=
      common_lowercase
        (StdString.substr (logPath this)
           (match StdString.find_last_of (logPath this) "." with
            | Some i => S i
            | None => O
            end)) in
    if negb (String.eqb extension "zip") then mkConfigureResult fs started this ecm
    else
      let '(ok, fs, this) := ExtractStateAndResources fs this in
      if negb ok then mkConfigureResult fs started this ecm
      else startUnlessStarted fs started this ecm
  else startUnlessStarted fs started this ecm.

(** *** LogPlayback::~LogPlayback *)

Definition Destroy (fs : FS) (started : bool) (this : LogPlaybackPrivate) : FS * bool :=
  let fs := if negb (StdString.empty (extDest this))
            then common_removeAll fs (extDest this) else fs in
  (fs, if instStarted this then false else started).

(** *** LogPlayback::Update *)

(** Lines 479-503: the time window of the query, the rewind flag and the
    initial list of entities to be removed. *)
Definition seekWindow (_info : UpdateInfo) (ecm : EntityComponentManager)
    : bool * gset Entity * duration * duration :=
  let startTime := simTime _info - dt _info in
  let endTime := simTime _info in
  if dt _info <? 0
  then (true, ECM.Entities_Vertices ecm, 0, endTime)
  else (false, ∅, startTime, endTime).

(** The body of the two loops over [msg.entities()]. *)
Definition updateEntitiesToRemove (entitiesToRemove : gset Entity)
    (entIt : SerializedEntity) : gset Entity :=
  if se_remove entIt
  then {[se_id entIt]} ∪ entitiesToRemove
  else entitiesToRemove ∖ {[se_id entIt]}.

(** One turn of the loop over the batch. *)
Definition playMessage (fs : FS) (seekRewind : bool)
    (st : LogPlaybackPrivate * EntityComponentManager * gset Entity)
    (m : Message) : LogPlaybackPrivate * EntityComponentManager * gset Entity :=
  let '(this, ecm, entitiesToRemove) := st in
  let msgType := Type_ m in
  let '(ecm, entitiesToRemove) :=
    if String.eqb msgType "gz.msgs.SerializedState" then
      let msg := ParseSerializedState (Data m) in
      let entitiesToRemove :=
        if seekRewind then foldl updateEntitiesToRemove entitiesToRemove msg
        else entitiesToRemove in
      (Parse_State ecm msg, entitiesToRemove)
    else if String.eqb msgType "gz.msgs.SerializedStateMap" then
      let msg := ParseSerializedStateMap (Data m) in
      let entitiesToRemove :=
        if seekRewind then foldl updateEntitiesToRemove entitiesToRemove msg.*2
        else entitiesToRemove in
      (Parse_StateMap ecm msg, entitiesToRemove)
    else (ecm, entitiesToRemove) in
  let '(this, ecm) := ReplaceResourceURIs fs this ecm in
  (this, ecm, entitiesToRemove).

(** The body of the lambda passed to [Each<components::ParticleEmitterCmd>]. *)
Definition particleEmitterCallback
    (st : LogPlaybackPrivate * EntityComponentManager)
    (ev : Entity * ComponentValue) : LogPlaybackPrivate * EntityComponentManager :=
  let '(this, ecm) := st in
  match ev.2 with
  | CParticleEmitterCmd emitting =>
      match prevParticleEmitterCmds this !! ev.1 with
      | None =>
          (set_prevParticleEmitterCmds this
             (<[ev.1 := emitting]> (prevParticleEmitterCmds this)), ecm)
      | Some prev =>
          if negb (Bool.eqb prev emitting) then
            (set_prevParticleEmitterCmds this
               (<[ev.1 := emitting]> (prevParticleEmitterCmds this)),
             ECM.SetChanged ecm ev.1 TParticleEmitterCmd)
          else (this, ecm)
      end
  | _ => (this, ecm)
  end.

(** Lines 604-609: the removal requests at the end of the step. *)
Definition removeEntities (ecm : EntityComponentManager)
    (entitiesToRemove : gset Entity) : EntityComponentManager :=
  set_fold (λ entity ecm, ECM.RequestRemoveEntity ecm entity) ecm entitiesToRemove.

Record UpdateResult := mkUpdateResult {
  ur_this : LogPlaybackPrivate;
  ur_ecm : EntityComponentManager;
  ur_events : list Event
}.

(** Lines 505-619, from the query on.  [None] stands for the dereference of
    a null event manager. *)
Definition playWindow (fs : FS) (lg : Log) (_info : UpdateInfo)
    (this : LogPlaybackPrivate) (ecm : EntityComponentManager)
    (seekRewind : bool) (entitiesToRemove : gset Entity)
    (startTime endTime : duration) : option UpdateResult :=
  let this := set_batch this (Log_QueryMessages lg startTime endTime) in
  let '(this, ecm, entitiesToRemove) :=
    foldl (playMessage fs seekRewind) (this, ecm, entitiesToRemove) (batch this) in
  let '(this, ecm) :=
    foldl particleEmitterCallback (this, ecm) (ECM.Each ecm TParticleEmitterCmd) in
  let ecm := removeEntities ecm entitiesToRemove in
  if bool_decide (Log_EndTime lg ≤ simTime _info) then
    match eventManager this with
    | Some _ => Some (mkUpdateResult this ecm [Pause true])
    | None => None
    end
  else Some (mkUpdateResult this ecm []).

(** [None] stands for the dereference of a null log or event manager, which
    a started instance never has. *)
Definition Update (fs : FS) (_info : UpdateInfo) (this : LogPlaybackPrivate)
    (ecm : EntityComponentManager) : option UpdateResult :=
  if dt _info =? 0 then Some (mkUpdateResult this ecm [])
  else if negb (instStarted this) then Some (mkUpdateResult this ecm [])
  else
    match log this with
    | None => None
    | Some lg =>
        let '(seekRewind, entitiesToRemove, startTime, endTime) :=
          seekWindow _info ecm in
        playWindow fs lg _info this ecm seekRewind entitiesToRemove startTime endTime
    end.

End LogPlayback.

Arguments LogPlaybackPrivate {C}.
Arguments StartResult {C}.
Arguments ConfigureResult {C}.
Arguments UpdateResult {C}.

Arguments PrependLogPath : simpl never.
Arguments ReplaceResourceURIs : simpl never.
Arguments geometryCallback : simpl never.
Arguments materialCallback : simpl never.
Arguments playMessage : simpl never.
Arguments particleEmitterCallback : simpl never.
Arguments removeEntities : simpl never.
Arguments ECM.SetStateEntity : simpl never.
Arguments ECM.SetState : simpl never.
Arguments ECM.SetStateMap : simpl never.
Arguments ECM.Each : simpl never.
Arguments substr_to : simpl never.

(** ** Vocabulary of the statements *)

(** The condition under which [PrependLogPath] prepends, once rewriting is
    enabled: the URI has the [file://] scheme and the rest does not start
    with the log path already, or the URI starts with a separator. *)
Definition shouldPrepend (logPath _uri : string) : bool :=
  (StdString.compare_eq0 _uri 0 (StdString.size filePrefix) filePrefix
   && negb (StdString.compare_eq0
              (StdString.substr _uri (StdString.size filePrefix))
              0 (StdString.size logPath) logPath))
  || Ascii.eqb (StdString.front _uri) "/".

(** The URI without its scheme, as [PrependLogPath] computes it. *)
Definition pathNoPrefix (_uri : string) : string :=
  if Ascii.eqb (StdString.front _uri) "/" then _uri
  else StdString.substr _uri (StdString.size filePrefix).

(** The log path joined with the stripped URI. *)
Definition pathPrepended `{C : Collaborators} (logPath _uri : string) : string :=
  common_joinPaths logPath (pathNoPrefix _uri).

(** The URI carries the [file://] scheme. *)
Definition hasFileScheme (_uri : string) : bool :=
  String.prefix filePrefix _uri.

(** The diff records of a message that [Update] walks through: those of the
    two state message kinds, none for any other message. *)
Definition messageRecords (m : Message) : list SerializedEntity :=
  if String.eqb (Type_ m) "gz.msgs.SerializedState"
  then ParseSerializedState (Data m)
  else if String.eqb (Type_ m) "gz.msgs.SerializedStateMap"
  then (ParseSerializedStateMap (Data m)).*2
  else [].

Definition batchRecords (b : list Message) : list SerializedEntity :=
  concat (messageRecords <$> b).


(** The particle-emitter pass of [Update] over the whole world. *)
Definition detectChanges `{C : Collaborators} (this : LogPlaybackPrivate)
    (ecm : EntityComponentManager) : LogPlaybackPrivate * EntityComponentManager :=
  foldl particleEmitterCallback (this, ecm) (ECM.Each ecm TParticleEmitterCmd).

(** The number of change marks an entity's command component has received. *)
Definition changeMarks (ecm : EntityComponentManager) (e : Entity) : nat :=
  length (filter (λ m, m = (e, TParticleEmitterCmd)) (ecm_oneTimeChanges ecm)).

(** One detector pass per step over a sequence of worlds; for each step the
    number of marks the pass adds for [e]. *)
Fixpoint observeSteps `{C : Collaborators} (this : LogPlaybackPrivate) (e : Entity)
    (worlds : list EntityComponentManager) : list nat :=
  match worlds with
  | [] => []
  | ecm :: rest =>
      let '(this', ecm') := detectChanges this ecm in
      (changeMarks ecm' e - changeMarks ecm e)%nat :: observeSteps this' e rest
  end.

(** The edges of a value sequence, in the words of the specification: nothing
    at the first observation, one notification at each index whose value
    differs from the one before. *)
Fixpoint edgesFrom (prev : bool) (vs : list bool) : list nat :=
  match vs with
  | [] => []
  | v :: rest => (if Bool.eqb prev v then 0%nat else 1%nat) :: edgesFrom v rest
  end.

Definition edges (vs : list bool) : list nat :=
  match vs with
  | [] => []
  | v :: rest => 0%nat :: edgesFrom v rest
  end.

(** Application of a sequence of diff messages by [Parse] alone. *)
Definition replay (ecm : EntityComponentManager) (diffs : list SerializedState)
    : EntityComponentManager :=
  foldl (λ ecm msg, ECM.SetState ecm msg) ecm diffs.

(** [this'] differs from [this] in the rewriting flag at most. *)
Definition sameButFlag `{C : Collaborators} (this this' : LogPlaybackPrivate) : Prop :=
  this' = set_doReplaceResourceURIs this (doReplaceResourceURIs this').

(** [ecm'] differs from [ecm] in the component values at most. *)
Definition sameButComponents (ecm ecm' : EntityComponentManager) : Prop :=
  ecm' = ECM.set_components ecm (ecm_components ecm').

(** The entities that the non-removal records of a list mention, and those
    that its removal records mention. *)
Definition createdBy (records : list SerializedEntity) : gset Entity :=
  list_to_set (se_id <$> filter (λ r, se_remove r = false) records).

Definition removedBy (records : list SerializedEntity) : gset Entity :=
  list_to_set (se_id <$> filter (λ r, se_remove r = true) records).

(** The time of the previous step. *)
Definition tPrev (_info : UpdateInfo) : duration := simTime _info - dt _info.

(** The scheme rule as the specification words it: when the joined path
    exists the result is that path, with [file://] in front if and only if
    the original URI had it. *)
Definition schemeKeptAsGiven : Prop :=
  ∀ (C : Collaborators) (fs : FS) (this : LogPlaybackPrivate) (_uri : string),
    doReplaceResourceURIs this = true →
    shouldPrepend (logPath this) _uri = true →
    common_exists fs (pathPrepended (logPath this) _uri) = true →
    (PrependLogPath fs this _uri).1 =
      if hasFileScheme _uri
      then filePrefix +:+ pathPrepended (logPath this) _uri
      else pathPrepended (logPath this) _uri.

(** End-of-log pause as the specification words it: once a step at or past the
    end of the log has emitted the pause signal, the next step at or past the
    end emits nothing. *)
Definition pauseOncePerCrossing : Prop :=
  ∀ (C : Collaborators) (fs : FS) (info1 info2 : UpdateInfo)
    (this : LogPlaybackPrivate) (ecm : EntityComponentManager) (lg : Log)
    (r1 r2 : UpdateResult),
    instStarted this = true →
    log this = Some lg →
    dt info1 ≠ 0 → dt info2 ≠ 0 →
    Log_EndTime lg ≤ simTime info1 →
    Log_EndTime lg ≤ simTime info2 →
    Update fs info1 this ecm = Some r1 →
    Update fs info2 (ur_this r1) (ur_ecm r1) = Some r2 →
    ur_events r1 = [Pause true] →
    ur_events r2 = [].

(** The contribution of one observation to the change marks of an entity:
    none at the first observation, none when the value is the recorded one,
    one when it differs. *)
Definition edgeOf (prev : option bool) (v : bool) : nat :=
  match prev with
  | None => 0%nat
  | Some p => if Bool.eqb p v then 0%nat else 1%nat
  end.

(** What a run of diff records amounts to: entities that come to exist,
    component values that are written, removals that are scheduled. *)
Record Delta := mkDelta {
  d_entities : gset Entity;
  d_components : gmap (Entity * ComponentTypeId) ComponentValue;
  d_removals : gset Entity
}.

Definition applyDelta (d : Delta) (ecm : EntityComponentManager) : EntityComponentManager :=
  mkECM (d_entities d ∪ ecm_entities ecm) (d_components d ∪ ecm_components ecm)
        (d_removals d ∪ ecm_toRemove ecm) (ecm_oneTimeChanges ecm)
        (ecm_entityCreateOffset ecm).

(** [later] after [earlier]. *)
Definition composeDelta (later earlier : Delta) : Delta :=
  mkDelta (d_entities later ∪ d_entities earlier)
          (d_components later ∪ d_components earlier)
          (d_removals later ∪ d_removals earlier).

(** The URI that [ReplaceResourceURIs] looks at in a component of type [t]:
    the mesh URI of a mesh geometry, the script URI of a material, when it is
    not empty. *)
Definition uriOf (t : ComponentTypeId) (c : ComponentValue) : option string :=
  match t, c with
  | TGeometry, CGeometry (MeshGeometry mesh) =>
      if StdString.empty (meshUri mesh) then None else Some (meshUri mesh)
  | TMaterial, CMaterial matSdf =>
      if StdString.empty (scriptUri matSdf) then None else Some (scriptUri matSdf)
  | _, _ => None
  end.

(** The component with that URI replaced. *)
Definition withUri (c : ComponentValue) (u : string) : ComponentValue :=
  match c with
  | CGeometry (MeshGeometry mesh) => CGeometry (MeshGeometry (mkMesh u (meshOther mesh)))
  | CMaterial matSdf => CMaterial (mkMaterial u (materialOther matSdf))
  | _ => c
  end.

(** The two callbacks of [ReplaceResourceURIs] in one form. *)
Definition rewriteCallback `{C : Collaborators} (fs : FS) (t : ComponentTypeId)
    (st : LogPlaybackPrivate * EntityComponentManager)
    (ev : Entity * ComponentValue) : LogPlaybackPrivate * EntityComponentManager :=
  match uriOf t ev.2 with
  | Some u =>
      (( PrependLogPath fs st.1 u).2,
       ECM.CreateComponent st.2 ev.1 (withUri ev.2 (PrependLogPath fs st.1 u).1))
  | None => st
  end.

(** The value that rewriting gives to a component of type [t]. *)
Definition rewritten `{C : Collaborators} (fs : FS) (this : LogPlaybackPrivate)
    (t : ComponentTypeId) (c : ComponentValue) : ComponentValue :=
  match uriOf t c with
  | Some u => withUri c (PrependLogPath fs this u).1
  | None => c
  end.

(** Rewriting the URI of [c] does not run into a missing file. *)
Definition resolves `{C : Collaborators} (fs : FS) (this : LogPlaybackPrivate)
    (t : ComponentTypeId) (c : ComponentValue) : Prop :=
  ∀ u, uriOf t c = Some u → (PrependLogPath fs this u).2 = this.

Definition allResolve `{C : Collaborators} (fs : FS) (this : LogPlaybackPrivate)
    (m : gmap (Entity * ComponentTypeId) ComponentValue) : Prop :=
  ∀ k c, m !! k = Some c → resolves fs this k.2 c.

(** Every component rewritten. *)
Definition rewrittenMap `{C : Collaborators} (fs : FS) (this : LogPlaybackPrivate)
    (m : gmap (Entity * ComponentTypeId) ComponentValue)
    : gmap (Entity * ComponentTypeId) ComponentValue :=
  map_imap (λ k c, Some (rewritten fs this k.2 c)) m.

(** Two instances with the same log path and the same rewriting flag, which
    is all that [PrependLogPath] reads of an instance. *)
Definition sameRewriting `{C : Collaborators} (this this' : LogPlaybackPrivate) : Prop :=
  logPath this = logPath this' ∧
  doReplaceResourceURIs this = doReplaceResourceURIs this'.

(** A world that rewriting leaves alone. *)
Definition settledMap `{C : Collaborators} (fs : FS) (this : LogPlaybackPrivate)
    (m : gmap (Entity * ComponentTypeId) ComponentValue) : Prop :=
  allResolve fs this m ∧ rewrittenMap fs this m = m.

(** The world as the batch loop of a step leaves it, which is the world the
    particle-emitter pass of that step looks at. *)
Definition worldAfterBatch `{C : Collaborators} (fs : FS) (lg : Log)
    (_info : UpdateInfo) (this : LogPlaybackPrivate) (ecm : EntityComponentManager)
    : EntityComponentManager :=
  let w := seekWindow _info ecm in
  let q := Log_QueryMessages lg w.1.2 w.2 in
  (foldl (playMessage fs w.1.1.1) (set_batch this q, ecm, w.1.1.2) q).1.2.

(** A sequence of steps; for each step the number of change marks it adds
    for [e].  The run stops at a step that does not return. *)
Fixpoint stepMarks `{C : Collaborators} (fs : FS) (this : LogPlaybackPrivate)
    (ecm : EntityComponentManager) (e : Entity) (infos : list UpdateInfo) : list nat :=
  match infos with
  | [] => []
  | _info :: rest =>
      match Update fs _info this ecm with
      | Some r =>
          (changeMarks (ur_ecm r) e - changeMarks ecm e)%nat
            :: stepMarks fs (ur_this r) (ur_ecm r) e rest
      | None => []
      end
  end.

(** The message is of one of the two state kinds that [Start] and [Update]
    apply. *)
Definition isStateMessage (m : Message) : bool :=
  String.eqb (Type_ m) "gz.msgs.SerializedState"
  || String.eqb (Type_ m) "gz.msgs.SerializedStateMap".

(** The path of the log file that [Start] opens. *)
Definition dbPath `{C : Collaborators} (this : LogPlaybackPrivate) : string :=
  common_joinPaths (logPath this) "state.tlog".

(** The log handle that [Start] ends up with: a fresh handle after [Open],
    whether [Open] succeeded or not. *)
Definition openedLog `{C : Collaborators} (fs : FS) (this : LogPlaybackPrivate) : Log :=
  (Log_Open fs Log_new (dbPath this)).2.

(** A started instance has a log and an event manager. *)
Definition wellFormed `{C : Collaborators} (this : LogPlaybackPrivate) : Prop :=
  instStarted this = true → is_Some (log this) ∧ is_Some (eventManager this).

(** A sequence of steps, each on the instance and world the one before left;
    the signals of all steps in order.  [None] when a step does not return. *)
Fixpoint steps `{C : Collaborators} (fs : FS) (this : LogPlaybackPrivate)
    (ecm : EntityComponentManager) (infos : list UpdateInfo)
    : option (LogPlaybackPrivate * EntityComponentManager * list Event) :=
  match infos with
  | [] => Some (this, ecm, [])
  | _info :: rest =>
      match Update fs _info this ecm with
      | Some r =>
          match steps fs (ur_this r) (ur_ecm r) rest with
          | Some (this', ecm', events) => Some (this', ecm', ur_events r ++ events)
          | None => None
          end
      | None => None
      end
  end.

(** A component slot of type [t] before and after rewriting: the slot is
    empty before and after, or it holds the same component, or it holds a
    component with a URI, changed in that URI only. *)
Definition onlyUriChanged (t : ComponentTypeId) (o o' : option ComponentValue) : Prop :=
  match o, o' with
  | Some c, Some c' => c' = c ∨ ∃ u u', uriOf t c = Some u ∧ c' = withUri c u'
  | None, None => True
  | _, _ => False
  end.


(** Idempotence of replay as the specification words it, for the batch loop
    of a step: running the same batch again, from the instance and the world
    that a first run left, ends in the world of the first run. *)
Definition rerunReproducesWorld : Prop :=
  ∀ (C : Collaborators) (fs : FS) (seekRewind : bool) (b : list Message)
    (this : LogPlaybackPrivate) (seed : EntityComponentManager) (s s' : gset Entity),
    let r1 := foldl (playMessage fs seekRewind) (this, seed, s) b in
    (foldl (playMessage fs seekRewind) (r1.1.1, r1.1.2, s') b).1.2 = r1.1.2.

(** ** A small concrete set of collaborators *)

Module Simple.

(** A filesystem: the paths that exist and the logs stored at some of them. *)
Record SimpleFS := mkFS {
  files : gset string;
  logs : gmap string (list (duration * Message))
}.

Definition joinPaths (a b : string) : string :=
  if Ascii.eqb (StdString.front b) "/" then a +:+ b else a +:+ "/" +:+ b.

(** Modelled from the spec: the range query of the LogMessageStore over the
    half-open window [[startTime, endTime)] of §3. *)
Definition queryRange (lg : list (duration * Message)) (startTime endTime : duration)
    : list Message :=
  (filter (λ tm : duration * Message, startTime ≤ tm.1 ∧ tm.1 < endTime) lg).*2.

Definition collaborators : Collaborators := {|
  FS := SimpleFS;
  Log := list (duration * Message);
  common_absPath p := p;
  common_isFile fs p := false;
  common_exists fs p := bool_decide (p ∈ files fs);
  common_joinPaths := joinPaths;
  common_lowercase s := s;
  common_basename s := s;
  common_uniqueDirectoryPath fs p := p;
  common_removeAll fs p := fs;
  Zip_Extract fs src dst := (false, fs);
  Log_new := [];
  Log_Open fs lg p :=
    match logs fs !! p with
    | Some l => (true, l)
    | None => (false, lg)
    end;
  Log_QueryAllMessages lg := lg.*2;
  Log_QueryMessages := queryRange;
  Log_StartTime lg := default 0 (fst <$> head lg);
  Log_EndTime lg := default 0 (fst <$> last lg)
|}.

Definition emitterRecord (e : Entity) (emitting : bool) : SerializedEntity :=
  mkSerializedEntity e [Recognized (CParticleEmitterCmd emitting)] false.

Definition meshRecord (e : Entity) (uri : string) : SerializedEntity :=
  mkSerializedEntity e [Recognized (CGeometry (MeshGeometry (mkMesh uri "")))] false.

Definition removal (e : Entity) : SerializedEntity :=
  mkSerializedEntity e [] true.

Definition stateMsg (records : list SerializedEntity) : Message :=
  mkMessage "gz.msgs.SerializedState" (StateData records).

(** A log of five seconds: the world entity 1 and a mesh entity 2 in the
    first frame, entity 3 created at 1 s, entity 2 removed at 2 s, entity 3
    updated at 3 s, last message at 5 s. *)
Definition sec : duration := 1000000000.

Definition demoLog : list (duration * Message) :=
  [ (0, stateMsg [mkSerializedEntity 1%N [Recognized CWorld] false;
                  meshRecord 2%N "/meshes/a.dae"]);
    (1 * sec, stateMsg [emitterRecord 3%N true]);
    (2 * sec, stateMsg [removal 2%N]);
    (3 * sec, stateMsg [emitterRecord 3%N false]);
    (5 * sec, mkMessage "gz.msgs.StringMsg" (StringData "sdf")) ].

Definition demoFS : SimpleFS :=
  mkFS {[ "/log/state.tlog"; "/log/meshes/a.dae" ]} {[ "/log/state.tlog" := demoLog ]}.

Definition emptyECM : EntityComponentManager := mkECM ∅ ∅ ∅ [] 0.

(** A log in which the emitter command of entity 3 reads true, true, false,
    false, true at the seconds 0 to 4, and the five steps that play it. *)
Definition emitterLog : list (duration * Message) :=
  [ (0, stateMsg [mkSerializedEntity 1%N [Recognized CWorld] false;
                  emitterRecord 3%N true]);
    (1 * sec, stateMsg [emitterRecord 3%N true]);
    (2 * sec, stateMsg [emitterRecord 3%N false]);
    (3 * sec, stateMsg [emitterRecord 3%N false]);
    (4 * sec, stateMsg [emitterRecord 3%N true]);
    (9 * sec, mkMessage "gz.msgs.StringMsg" (StringData "end")) ].

Definition emitterFS : SimpleFS :=
  mkFS {[ "/log/state.tlog" ]} {[ "/log/state.tlog" := emitterLog ]}.

Definition emitterConfigured : ConfigureResult (C := collaborators) :=
  Configure (C := collaborators) emitterFS false LogPlaybackPrivate_init "/log" 7%N emptyECM.

Definition fiveSteps : list UpdateInfo :=
  (λ k, mkUpdateInfo (k * sec) sec) <$> [1; 2; 3; 4; 5].

(** A batch whose first message brings a mesh that the log directory holds
    and whose second brings one that it does not hold. *)
Definition fallbackBatch : list Message :=
  [ stateMsg [meshRecord 2%N "/meshes/a.dae"];
    stateMsg [meshRecord 4%N "/meshes/b.dae"] ].

(** A world in which entity 3 holds an emitter command with the given value. *)
Definition emitterWorld (emitting : bool) : EntityComponentManager :=
  ECM.SetState emptyECM [emitterRecord 3%N emitting].

(** The instance and the world after [Configure] on the demo log. *)
Definition configured : ConfigureResult (C := collaborators) :=
  Configure (C := collaborators) demoFS false LogPlaybackPrivate_init "/log" 7%N emptyECM.

Definition demoThis : LogPlaybackPrivate (C := collaborators) := cr_this configured.
Definition demoECM : EntityComponentManager := cr_ecm configured.

(** A jump back from later in the log to 3 s, a forward step of one second
    to just after 2 s, and a step of one second to the end of the log. *)
Definition backInfo : UpdateInfo := mkUpdateInfo (3 * sec) (- sec).
Definition fwdInfo : UpdateInfo := mkUpdateInfo (2 * sec + 1) sec.
Definition endInfo : UpdateInfo := mkUpdateInfo (5 * sec) sec.

(** An instance with the log path set, as [Configure] sets it before it
    calls [Start]. *)
Definition pathSet : LogPlaybackPrivate (C := collaborators) :=
  set_eventManager (set_logPath LogPlaybackPrivate_init "/log") (Some 7%N).

(** A log whose first state message brings no world entity. *)
Definition noWorldLog : list (duration * Message) :=
  [ (0, mkMessage "gz.msgs.StringMsg" (StringData "sdf"));
    (0, stateMsg [meshRecord 2%N "/meshes/a.dae"]);
    (1 * sec, stateMsg [mkSerializedEntity 1%N [Recognized CWorld] false]) ].

Definition noWorldFS : SimpleFS :=
  mkFS {[ "/log/state.tlog" ]} {[ "/log/state.tlog" := noWorldLog ]}.



(** Three steps on the demo log: forward, back, and to the end of the log. *)
Definition threeSteps : list UpdateInfo := [fwdInfo; backInfo; endInfo].

(** A jump back to time zero, whose window holds no message. *)
Definition toZeroInfo : UpdateInfo := mkUpdateInfo 0 (- (2 * sec)).

(** Collaborators with archives: every path of the filesystem is a file, and
    extraction succeeds for [/rec/good.zip] only. *)
Definition archiveCollaborators : Collaborators := {|
  FS := SimpleFS;
  Log := list (duration * Message);
  common_absPath p := p;
  common_isFile fs p := bool_decide (p ∈ files fs);
  common_exists fs p := bool_decide (p ∈ files fs);
  common_joinPaths := joinPaths;
  common_lowercase s := s;
  common_basename s := s;
  common_uniqueDirectoryPath fs p := p;
  common_removeAll fs p := fs;
  Zip_Extract fs src dst := (bool_decide (src = "/rec/good.zip"), fs);
  Log_new := [];
  Log_Open fs lg p :=
    match logs fs !! p with
    | Some l => (true, l)
    | None => (false, lg)
    end;
  Log_QueryAllMessages lg := lg.*2;
  Log_QueryMessages := queryRange;
  Log_StartTime lg := default 0 (fst <$> head lg);
  Log_EndTime lg := default 0 (fst <$> last lg)
|}.

Definition archiveFS : SimpleFS :=
  mkFS {[ "/rec/good.zip"; "/rec/bad.zip"; "/rec/notes.txt" ]} ∅.




(** The first step of one second from the start of a log. *)
Definition firstInfo : UpdateInfo := mkUpdateInfo (1 * sec) sec.

End Simple.


(** * Properties *)

(** ** Strings *)

Section StringFacts.

Lemma substring_0_length (s : string) : String.substring 0 (String.length s) s = s.
Proof. induction s as [|c s IH]; simpl; [done | by rewrite IH]. Qed.

Lemma substring_0_app (t r : string) :
  String.substring 0 (String.length t) (t +:+ r) = t.
Proof.
  induction t as [|c t IH].
  - by destruct r.
  - change (String c (String.substring 0 (String.length t) (t +:+ r)) = String c t).
    by rewrite IH.
Qed.

Lemma substring_0_is_prefix (n : nat) (s : string) :
  ∃ r, s = String.substring 0 n s +:+ r.
Proof.
  revert n. induction s as [|c s IH]; intros [|n]; simpl; eauto.
  destruct (IH n) as [r Hr]. exists r.
  exact (f_equal (String c) Hr).
Qed.

Lemma substring_skip_app (t r : string) (m : nat) :
  String.substring (String.length t) m (t +:+ r) = String.substring 0 m r.
Proof. induction t as [|c t IH]; [done | exact IH]. Qed.

Lemma string_length_app (t r : string) :
  String.length (t +:+ r) = (String.length t + String.length r)%nat.
Proof.
  induction t as [|c t IH]; [done |].
  change (S (String.length (t +:+ r)) = S (String.length t + String.length r)).
  by rewrite IH.
Qed.

Lemma compare_eq0_prefix (s t : string) :
  StdString.compare_eq0 s 0 (StdString.size t) t = true ↔ ∃ r, s = t +:+ r.
Proof.
  unfold StdString.compare_eq0, StdString.size. rewrite String.eqb_eq. split.
  - intros Heq.
    destruct (substring_0_is_prefix
                (Nat.min (String.length t) (String.length s - 0)) s) as [r Hr].
    exists r. by rewrite Heq in Hr.
  - intros [r ->]. rewrite string_length_app.
    replace (Nat.min _ _) with (String.length t) by lia.
    apply substring_0_app.
Qed.

Lemma substr_app (t r : string) : StdString.substr (t +:+ r) (StdString.size t) = r.
Proof.
  unfold StdString.substr, StdString.size.
  rewrite substring_skip_app, string_length_app.
  replace (_ + _ - _)%nat with (String.length r) by lia.
  apply substring_0_length.
Qed.

Lemma front_app_filePrefix (r : string) :
  Ascii.eqb (StdString.front (filePrefix +:+ r)) "/" = false.
Proof. reflexivity. Qed.

(** A rewritten URI is not rewritten again, provided joining keeps the log
    path in front. *)
Lemma shouldPrepend_rewritten (logPath q : string) :
  shouldPrepend logPath (filePrefix +:+ logPath +:+ q) = false.
Proof.
  unfold shouldPrepend.
  rewrite front_app_filePrefix, orb_false_r.
  apply andb_false_intro2, negb_false_iff.
  rewrite substr_app. apply compare_eq0_prefix. eauto.
Qed.

End StringFacts.

(** ** Resource URIs *)

Section ResourceURIs.

Context `{C : Collaborators}.

Implicit Types (this : LogPlaybackPrivate) (ecm : EntityComponentManager).

Lemma PrependLogPath_unfold (fs : FS) this (_uri : string) :
  PrependLogPath fs this _uri =
    if negb (doReplaceResourceURIs this) then (_uri, this)
    else if shouldPrepend (logPath this) _uri then
      if negb (common_exists fs (pathPrepended (logPath this) _uri))
      then (_uri, set_doReplaceResourceURIs this false)
      else (filePrefix +:+ pathPrepended (logPath this) _uri, this)
    else (_uri, this).
Proof. reflexivity. Qed.

Lemma PrependLogPath_disabled (fs : FS) this (_uri : string) :
  doReplaceResourceURIs this = false → PrependLogPath fs this _uri = (_uri, this).
Proof. intros Hoff. unfold PrependLogPath. by rewrite Hoff. Qed.

Lemma ReplaceResourceURIs_disabled (fs : FS) this ecm :
  doReplaceResourceURIs this = false → ReplaceResourceURIs fs this ecm = (this, ecm).
Proof. intros Hoff. unfold ReplaceResourceURIs. by rewrite Hoff. Qed.

(** With rewriting disabled, a turn of the batch loop leaves the instance
    as it is. *)
Lemma playMessage_disabled (fs : FS) (seekRewind : bool) this ecm
    (s : gset Entity) (m : Message) :
  doReplaceResourceURIs this = false →
  (playMessage fs seekRewind (this, ecm, s) m).1.1 = this.
Proof.
  intros Hoff. unfold playMessage.
  repeat case_match; simplify_eq;
    match goal with
    | H : ReplaceResourceURIs _ _ _ = _ |- _ =>
        rewrite ReplaceResourceURIs_disabled in H by done; by simplify_eq
    end.
Qed.

Lemma playBatch_disabled (fs : FS) (seekRewind : bool) (b : list Message) this ecm
    (s : gset Entity) :
  doReplaceResourceURIs this = false →
  (foldl (playMessage fs seekRewind) (this, ecm, s) b).1.1 = this.
Proof.
  intros Hoff. revert ecm s. induction b as [|m b IH]; intros ecm s; [done |].
  simpl. pose proof (playMessage_disabled fs seekRewind this ecm s m Hoff) as Hm.
  destruct (playMessage fs seekRewind (this, ecm, s) m) as [[this' ecm'] s'].
  simpl in Hm. subst this'. apply IH.
Qed.

(** The particle-emitter pass writes no member but the cache of previous
    commands. *)
Lemma particleEmitterCallback_members this ecm (ev : Entity * ComponentValue) :
  let this' := (particleEmitterCallback (this, ecm) ev).1 in
  this' = set_prevParticleEmitterCmds this (prevParticleEmitterCmds this').
Proof.
  unfold particleEmitterCallback. destruct this.
  repeat case_match; simplify_eq; done.
Qed.

Lemma particleEmitterPass_members (l : list (Entity * ComponentValue)) this ecm :
  let this' := (foldl particleEmitterCallback (this, ecm) l).1 in
  this' = set_prevParticleEmitterCmds this (prevParticleEmitterCmds this').
Proof.
  revert this ecm. induction l as [|ev l IH]; intros this ecm; simpl.
  - by destruct this.
  - pose proof (particleEmitterCallback_members this ecm ev) as Hev.
    destruct (particleEmitterCallback (this, ecm) ev) as [this1 ecm1].
    simpl in Hev. specialize (IH this1 ecm1). simpl in IH.
    rewrite IH. rewrite Hev. reflexivity.
Qed.

End ResourceURIs.

Section LegacyFallback.

Context `{C : Collaborators}.

Implicit Types (this : LogPlaybackPrivate) (ecm : EntityComponentManager).

(** Once rewriting is disabled, no step of the playback enables it again. *)
Lemma Update_keeps_disabled (fs : FS) (_info : UpdateInfo) this ecm (r : UpdateResult) :
  doReplaceResourceURIs this = false →
  Update fs _info this ecm = Some r →
  doReplaceResourceURIs (ur_this r) = false.
Proof.
  intros Hoff. unfold Update.
  destruct (dt _info =? 0); [by intros [= <-] |].
  destruct (negb (instStarted this)); [by intros [= <-] |].
  destruct (log this) as [lg|]; [| done].
  destruct (seekWindow _info ecm) as [[[seekRewind s] startTime] endTime].
  unfold playWindow.
  set (this0 := set_batch this (Log_QueryMessages lg startTime endTime)).
  assert (doReplaceResourceURIs this0 = false) as Hoff0 by done.
  pose proof (playBatch_disabled fs seekRewind (batch this0) this0 ecm s Hoff0) as Hb.
  destruct (foldl (playMessage fs seekRewind) (this0, ecm, s) (batch this0))
    as [[this1 ecm1] s1].
  simpl in Hb. subst this1.
  pose proof (particleEmitterPass_members
                (ECM.Each ecm1 TParticleEmitterCmd) this0 ecm1) as Hp.
  destruct (foldl particleEmitterCallback (this0, ecm1)
              (ECM.Each ecm1 TParticleEmitterCmd)) as [this2 ecm2].
  simpl in Hp.
  assert (doReplaceResourceURIs this2 = false) as Hoff2 by (by rewrite Hp).
  repeat case_match; intros [= <-]; done.
Qed.

(** C4. When the path obtained by joining the log path with the stripped
    URI does not exist, [PrependLogPath] returns the URI as it is and
    switches rewriting off; from then on every call of [PrependLogPath]
    returns its URI unmodified, [ReplaceResourceURIs] changes nothing, and
    every later step of the playback keeps rewriting switched off. *)
Theorem legacy_fallback_is_permanent (fs : FS) this (_uri : string) :
  doReplaceResourceURIs this = true →
  shouldPrepend (logPath this) _uri = true →
  common_exists fs (pathPrepended (logPath this) _uri) = false →
  ∃ this',
    PrependLogPath fs this _uri = (_uri, this') ∧
    doReplaceResourceURIs this' = false ∧
    (∀ (fs' : FS) (u : string), PrependLogPath fs' this' u = (u, this')) ∧
    (∀ (fs' : FS) ecm, ReplaceResourceURIs fs' this' ecm = (this', ecm)) ∧
    (∀ (fs' : FS) (_info : UpdateInfo) ecm (r : UpdateResult),
        Update fs' _info this' ecm = Some r →
        doReplaceResourceURIs (ur_this r) = false).
Proof.
  intros Hon Hcond Hmissing.
  exists (set_doReplaceResourceURIs this false).
  split; [| split; [done | split; [| split]]].
  - rewrite PrependLogPath_unfold, Hon, Hcond, Hmissing. reflexivity.
  - intros fs' u. by apply PrependLogPath_disabled.
  - intros fs' ecm. by apply ReplaceResourceURIs_disabled.
  - intros fs' _info ecm r. by apply Update_keeps_disabled.
Qed.

(** C8, as the code has it.  When the joined path exists, the result is
    [file://] followed by the joined path, whether or not the original URI
    carried the scheme; the instance is left as it is. *)
Theorem rewritten_uri_has_file_scheme (fs : FS) this (_uri : string) :
  doReplaceResourceURIs this = true →
  shouldPrepend (logPath this) _uri = true →
  common_exists fs (pathPrepended (logPath this) _uri) = true →
  PrependLogPath fs this _uri =
    (filePrefix +:+ common_joinPaths (logPath this) (pathNoPrefix _uri), this).
Proof.
  intros Hon Hcond Hexists.
  rewrite PrependLogPath_unfold, Hon, Hcond, Hexists. reflexivity.
Qed.

(** A second call on the result of a first one changes nothing, provided
    joining keeps the log path in front of the joined path. *)
Lemma PrependLogPath_twice (fs : FS) this (_uri u1 : string) this1 :
  (∀ q, ∃ r, common_joinPaths (logPath this) q = logPath this +:+ r) →
  PrependLogPath fs this _uri = (u1, this1) →
  PrependLogPath fs this1 u1 = (u1, this1).
Proof.
  intros Hjoin. rewrite !PrependLogPath_unfold.
  destruct (doReplaceResourceURIs this) eqn:Hon; simpl.
  - destruct (shouldPrepend (logPath this) _uri) eqn:Hcond.
    + destruct (common_exists fs (pathPrepended (logPath this) _uri)) eqn:Hex; simpl.
      * intros [= <- <-]. rewrite Hon. simpl.
        unfold pathPrepended at 1.
        destruct (Hjoin (pathNoPrefix _uri)) as [r ->].
        by rewrite shouldPrepend_rewritten.
      * by intros [= <- <-].
    + intros [= <- <-]. by rewrite Hon, Hcond.
  - intros [= <- <-]. by rewrite Hon.
Qed.

End LegacyFallback.

(** C8, as the specification words it, fails: the bare absolute path
    [/meshes/a.dae], whose joined path exists, comes back with the [file://]
    scheme in front. *)
Lemma scheme_is_added_to_bare_path : ¬ schemeKeptAsGiven.
Proof.
  intros Hspec.
  specialize (Hspec Simple.collaborators Simple.demoFS Simple.demoThis "/meshes/a.dae").
  vm_compute in Hspec.
  specialize (Hspec eq_refl eq_refl eq_refl). discriminate Hspec.
Qed.

(** ** What each operation leaves alone *)

Section Frames.

Context `{C : Collaborators}.

Implicit Types (this : LogPlaybackPrivate) (ecm : EntityComponentManager).

Lemma sameButFlag_refl this : sameButFlag this this.
Proof. by destruct this. Qed.

Lemma sameButFlag_trans this1 this2 this3 :
  sameButFlag this1 this2 → sameButFlag this2 this3 → sameButFlag this1 this3.
Proof. unfold sameButFlag. intros -> ->. by destruct this1. Qed.

Lemma sameButComponents_refl ecm : sameButComponents ecm ecm.
Proof. by destruct ecm. Qed.

Lemma sameButComponents_trans ecm1 ecm2 ecm3 :
  sameButComponents ecm1 ecm2 → sameButComponents ecm2 ecm3 →
  sameButComponents ecm1 ecm3.
Proof. unfold sameButComponents. intros -> ->. by destruct ecm1. Qed.

Lemma PrependLogPath_sameButFlag (fs : FS) this (_uri : string) :
  sameButFlag this (PrependLogPath fs this _uri).2.
Proof.
  rewrite PrependLogPath_unfold. destruct this.
  repeat case_match; done.
Qed.

Lemma geometryCallback_frame (fs : FS) this ecm (ev : Entity * ComponentValue) :
  sameButFlag this (geometryCallback fs (this, ecm) ev).1 ∧
  sameButComponents ecm (geometryCallback fs (this, ecm) ev).2.
Proof.
  unfold geometryCallback.
  destruct ev.2 as [| | [mesh|] | | |];
    try (split; [apply sameButFlag_refl | apply sameButComponents_refl]).
  destruct (negb (StdString.empty (meshUri mesh)));
    [| split; [apply sameButFlag_refl | apply sameButComponents_refl]].
  pose proof (PrependLogPath_sameButFlag fs this (meshUri mesh)) as Hp.
  destruct (PrependLogPath fs this (meshUri mesh)) as [u this']. simpl in *.
  split; [done | by destruct ecm].
Qed.

Lemma materialCallback_frame (fs : FS) this ecm (ev : Entity * ComponentValue) :
  sameButFlag this (materialCallback fs (this, ecm) ev).1 ∧
  sameButComponents ecm (materialCallback fs (this, ecm) ev).2.
Proof.
  unfold materialCallback.
  destruct ev.2 as [| | | matSdf | |];
    try (split; [apply sameButFlag_refl | apply sameButComponents_refl]).
  destruct (negb (StdString.empty (scriptUri matSdf)));
    [| split; [apply sameButFlag_refl | apply sameButComponents_refl]].
  pose proof (PrependLogPath_sameButFlag fs this (scriptUri matSdf)) as Hp.
  destruct (PrependLogPath fs this (scriptUri matSdf)) as [u this']. simpl in *.
  split; [done | by destruct ecm].
Qed.

(** A fold of steps that each stay within the frame stays within it. *)
Lemma foldl_frame {A : Type}
    (f : LogPlaybackPrivate * EntityComponentManager → A →
         LogPlaybackPrivate * EntityComponentManager)
    (l : list A) this ecm :
  (∀ this ecm a, sameButFlag this (f (this, ecm) a).1 ∧
                 sameButComponents ecm (f (this, ecm) a).2) →
  sameButFlag this (foldl f (this, ecm) l).1 ∧
  sameButComponents ecm (foldl f (this, ecm) l).2.
Proof.
  intros Hf. revert this ecm.
  induction l as [|a l IH]; intros this ecm; simpl.
  - split; [apply sameButFlag_refl | apply sameButComponents_refl].
  - destruct (Hf this ecm a) as [H1 H2].
    destruct (f (this, ecm) a) as [this1 ecm1]. simpl in *.
    destruct (IH this1 ecm1) as [H3 H4].
    split; [by eapply sameButFlag_trans | by eapply sameButComponents_trans].
Qed.

Lemma ReplaceResourceURIs_frame (fs : FS) this ecm :
  sameButFlag this (ReplaceResourceURIs fs this ecm).1 ∧
  sameButComponents ecm (ReplaceResourceURIs fs this ecm).2.
Proof.
  unfold ReplaceResourceURIs.
  destruct (negb (doReplaceResourceURIs this));
    [split; [apply sameButFlag_refl | apply sameButComponents_refl] |].
  destruct (foldl_frame (geometryCallback fs) (ECM.Each ecm TGeometry) this ecm
              (geometryCallback_frame fs)) as [H1 H2].
  destruct (foldl (geometryCallback fs) (this, ecm) (ECM.Each ecm TGeometry))
    as [this1 ecm1]. simpl in *.
  destruct (foldl_frame (materialCallback fs) (ECM.Each ecm1 TMaterial) this1 ecm1
              (materialCallback_frame fs)) as [H3 H4].
  split; [by eapply sameButFlag_trans | by eapply sameButComponents_trans].
Qed.

(** The particle-emitter pass leaves the world as it is, apart from the
    change marks. *)
Lemma particleEmitterCallback_world this ecm (ev : Entity * ComponentValue) :
  let ecm' := (particleEmitterCallback (this, ecm) ev).2 in
  ecm_entities ecm' = ecm_entities ecm ∧
  ecm_components ecm' = ecm_components ecm ∧
  ecm_toRemove ecm' = ecm_toRemove ecm.
Proof. unfold particleEmitterCallback. repeat case_match; done. Qed.

Lemma particleEmitterPass_world (l : list (Entity * ComponentValue)) this ecm :
  let ecm' := (foldl particleEmitterCallback (this, ecm) l).2 in
  ecm_entities ecm' = ecm_entities ecm ∧
  ecm_components ecm' = ecm_components ecm ∧
  ecm_toRemove ecm' = ecm_toRemove ecm.
Proof.
  revert this ecm. induction l as [|ev l IH]; intros this ecm; simpl; [done |].
  pose proof (particleEmitterCallback_world this ecm ev) as Hev.
  destruct (particleEmitterCallback (this, ecm) ev) as [this1 ecm1].
  simpl in Hev. destruct Hev as (H1 & H2 & H3).
  specialize (IH this1 ecm1). simpl in IH. destruct IH as (H4 & H5 & H6).
  by rewrite H4, H5, H6.
Qed.

(** The removal loop adds the whole set to the requested removals. *)
Lemma removeEntities_spec ecm (s : gset Entity) :
  removeEntities ecm s =
    mkECM (ecm_entities ecm) (ecm_components ecm) (s ∪ ecm_toRemove ecm)
          (ecm_oneTimeChanges ecm) (ecm_entityCreateOffset ecm).
Proof.
  unfold removeEntities.
  apply (set_fold_ind_L
           (λ (r : EntityComponentManager) (X : gset Entity),
              r = mkECM (ecm_entities ecm) (ecm_components ecm)
                    (X ∪ ecm_toRemove ecm) (ecm_oneTimeChanges ecm)
                    (ecm_entityCreateOffset ecm))).
  - rewrite (left_id_L ∅ (∪)). by destruct ecm.
  - intros e X r _ ->. unfold ECM.RequestRemoveEntity. simpl.
    f_equal. by rewrite (assoc_L (∪)).
Qed.

End Frames.

(** ** The batch loop *)

Section BatchLoop.

Context `{C : Collaborators}.

Implicit Types (this : LogPlaybackPrivate) (ecm : EntityComponentManager).

Lemma SetStateComponent_world (e : Entity) ecm (c : SerializedComponent) :
  sameButComponents ecm (ECM.SetStateComponent e ecm c).
Proof. destruct c; by destruct ecm. Qed.

Lemma SetStateComponents_world (e : Entity) (cs : list SerializedComponent) ecm :
  sameButComponents ecm (foldl (ECM.SetStateComponent e) ecm cs).
Proof.
  revert ecm. induction cs as [|c cs IH]; intros ecm; simpl.
  - apply sameButComponents_refl.
  - eapply sameButComponents_trans; [apply SetStateComponent_world | apply IH].
Qed.

Lemma SetStateEntity_world ecm (r : SerializedEntity) :
  ecm_entities (ECM.SetStateEntity ecm r) = createdBy [r] ∪ ecm_entities ecm ∧
  ecm_toRemove (ECM.SetStateEntity ecm r) = removedBy [r] ∪ ecm_toRemove ecm.
Proof.
  unfold ECM.SetStateEntity, createdBy, removedBy.
  rewrite !filter_cons, !filter_nil.
  destruct (se_remove r) eqn:Hrm.
  - rewrite decide_False by done. rewrite decide_True by done. simpl.
    split; set_solver.
  - rewrite decide_True by done. rewrite decide_False by done.
    match goal with
    | |- context [foldl ?f ?a ?l] =>
        pose proof (SetStateComponents_world (se_id r) l a) as Hw
    end.
    unfold sameButComponents in Hw. rewrite Hw. simpl.
    unfold ECM.HasEntity. case_bool_decide; simpl; split; set_solver.
Qed.

Lemma createdBy_app (l1 l2 : list SerializedEntity) :
  createdBy (l1 ++ l2) = createdBy l1 ∪ createdBy l2.
Proof. unfold createdBy. by rewrite filter_app, fmap_app, list_to_set_app_L. Qed.

Lemma removedBy_app (l1 l2 : list SerializedEntity) :
  removedBy (l1 ++ l2) = removedBy l1 ∪ removedBy l2.
Proof. unfold removedBy. by rewrite filter_app, fmap_app, list_to_set_app_L. Qed.

Lemma SetStateEntities_world (rs : list SerializedEntity) ecm :
  ecm_entities (foldl ECM.SetStateEntity ecm rs) = createdBy rs ∪ ecm_entities ecm ∧
  ecm_toRemove (foldl ECM.SetStateEntity ecm rs) = removedBy rs ∪ ecm_toRemove ecm.
Proof.
  revert ecm. induction rs as [|r rs IH]; intros ecm; simpl.
  - split; set_solver.
  - destruct (IH (ECM.SetStateEntity ecm r)) as [-> ->].
    destruct (SetStateEntity_world ecm r) as [-> ->].
    change (r :: rs) with ([r] ++ rs).
    rewrite createdBy_app, removedBy_app. split; set_solver.
Qed.

Lemma union_later_first (A B E : gset Entity) : A ∪ (B ∪ E) = B ∪ A ∪ E.
Proof. set_solver. Qed.

(** One turn of the loop: the records of the message are applied to the
    world and, when rewinding, to the set; the URIs are rewritten. *)
Lemma playMessage_unfold (fs : FS) (seekRewind : bool) this ecm (s : gset Entity)
    (m : Message) :
  playMessage fs seekRewind (this, ecm, s) m =
    (ReplaceResourceURIs fs this (foldl ECM.SetStateEntity ecm (messageRecords m)),
     if seekRewind then foldl updateEntitiesToRemove s (messageRecords m) else s).
Proof.
  unfold playMessage, messageRecords, Parse_State, Parse_StateMap,
    ECM.SetState, ECM.SetStateMap.
  destruct (String.eqb (Type_ m) "gz.msgs.SerializedState");
    [| destruct (String.eqb (Type_ m) "gz.msgs.SerializedStateMap")];
    destruct (ReplaceResourceURIs fs this _) as [this' ecm'];
    by destruct seekRewind.
Qed.

Lemma playBatch_spec (fs : FS) (seekRewind : bool) (b : list Message) this ecm
    (s : gset Entity) :
  let r := foldl (playMessage fs seekRewind) (this, ecm, s) b in
  sameButFlag this r.1.1 ∧
  ecm_entities r.1.2 = createdBy (batchRecords b) ∪ ecm_entities ecm ∧
  ecm_toRemove r.1.2 = removedBy (batchRecords b) ∪ ecm_toRemove ecm ∧
  r.2 = if seekRewind then foldl updateEntitiesToRemove s (batchRecords b) else s.
Proof.
  revert this ecm s. induction b as [|m b IH]; intros this ecm s; simpl.
  - split; [apply sameButFlag_refl |]. repeat split; try set_solver.
    by destruct seekRewind.
  - rewrite playMessage_unfold.
    set (ecmA := foldl ECM.SetStateEntity ecm (messageRecords m)).
    destruct (ReplaceResourceURIs_frame fs this ecmA) as [Hthis Hecm].
    destruct (ReplaceResourceURIs fs this ecmA) as [this1 ecm1]. simpl in *.
    specialize (IH this1 ecm1
      (if seekRewind then foldl updateEntitiesToRemove s (messageRecords m) else s)).
    simpl in IH. destruct IH as (H1 & H2 & H3 & H4).
    destruct (SetStateEntities_world (messageRecords m) ecm) as [He Hr].
    fold ecmA in He, Hr.
    unfold sameButComponents in Hecm.
    assert (ecm_entities ecm1 = ecm_entities ecmA) as He1 by (by rewrite Hecm).
    assert (ecm_toRemove ecm1 = ecm_toRemove ecmA) as Hr1 by (by rewrite Hecm).
    unfold batchRecords in *. rewrite fmap_cons, concat_cons.
    rewrite createdBy_app, removedBy_app, foldl_app.
    split; [by eapply sameButFlag_trans |].
    rewrite H2, H3, H4, He1, Hr1, He, Hr.
    split; [apply union_later_first | split; [apply union_later_first |]].
    by destruct seekRewind.
Qed.


End BatchLoop.

(** ** One step of the playback *)

Section Step.

Context `{C : Collaborators}.

Implicit Types (this : LogPlaybackPrivate) (ecm : EntityComponentManager).

(** What a started instance does on a step with a non-zero time delta. *)
Lemma Update_started (fs : FS) (_info : UpdateInfo) this ecm (lg : Log) (em : N) :
  dt _info ≠ 0 →
  instStarted this = true →
  log this = Some lg →
  eventManager this = Some em →
  let w := seekWindow _info ecm in
  let q := Log_QueryMessages lg w.1.2 w.2 in
  let b := foldl (playMessage fs w.1.1.1) (set_batch this q, ecm, w.1.1.2) q in
  let d := detectChanges b.1.1 b.1.2 in
  Update fs _info this ecm =
    Some (mkUpdateResult d.1 (removeEntities d.2 b.2)
            (if bool_decide (Log_EndTime lg ≤ simTime _info)
             then [Pause true] else [])) ∧
  d.1 = set_prevParticleEmitterCmds
          (set_doReplaceResourceURIs (set_batch this q)
             (doReplaceResourceURIs b.1.1))
          (prevParticleEmitterCmds d.1).
Proof.
  intros Hdt Hstarted Hlog Hem w q b d.
  assert (d.1 = set_prevParticleEmitterCmds
                  (set_doReplaceResourceURIs (set_batch this q)
                     (doReplaceResourceURIs b.1.1))
                  (prevParticleEmitterCmds d.1)) as Hd.
  { subst d. unfold detectChanges.
    rewrite (particleEmitterPass_members _ b.1.1 b.1.2) at 1.
    f_equal.
    destruct (playBatch_spec fs w.1.1.1 q (set_batch this q) ecm w.1.1.2) as [Hb _].
    exact Hb. }
  split; [| exact Hd].
  unfold Update. rewrite (proj2 (Z.eqb_neq _ _) Hdt), Hstarted, Hlog. simpl.
  subst d b q w.
  destruct (seekWindow _info ecm) as [[[seekRewind s] startTime] endTime].
  simpl in *. unfold playWindow. simpl.
  destruct (foldl (playMessage fs seekRewind)
              (set_batch this (Log_QueryMessages lg startTime endTime), ecm, s)
              (Log_QueryMessages lg startTime endTime)) as [[this1 ecm1] s1].
  simpl in *. unfold detectChanges in *.
  destruct (foldl particleEmitterCallback (this1, ecm1)
              (ECM.Each ecm1 TParticleEmitterCmd)) as [this2 ecm2].
  simpl in *.
  assert (eventManager this2 = Some em) as -> by (by rewrite Hd).
  by case_bool_decide.
Qed.

Lemma seekWindow_backward (_info : UpdateInfo) ecm :
  simTime _info < tPrev _info →
  seekWindow _info ecm = (true, ECM.Entities_Vertices ecm, 0, simTime _info).
Proof.
  unfold tPrev, seekWindow. intros Hlt.
  by rewrite (proj2 (Z.ltb_lt (dt _info) 0)) by lia.
Qed.

Lemma seekWindow_forward (_info : UpdateInfo) ecm :
  tPrev _info < simTime _info →
  seekWindow _info ecm = (false, ∅, tPrev _info, simTime _info).
Proof.
  unfold tPrev, seekWindow. intros Hlt.
  by rewrite (proj2 (Z.ltb_ge (dt _info) 0)) by lia.
Qed.

(** C1. On a step that jumps backward in time ([tNow < tPrev]) a started
    instance sets the rewind flag, starts the list of entities to be
    removed as the set of all entities now in the world, and queries the
    log for the window from time zero to [tNow]; the step then plays that
    query, which is also what the instance keeps as its batch. *)
Theorem backward_jump_replays_from_zero (fs : FS) (_info : UpdateInfo) this ecm
    (lg : Log) (em : N) :
  simTime _info < tPrev _info →
  instStarted this = true →
  log this = Some lg →
  eventManager this = Some em →
  seekWindow _info ecm = (true, ecm_entities ecm, 0, simTime _info) ∧
  Update fs _info this ecm =
    playWindow fs lg _info this ecm true (ecm_entities ecm) 0 (simTime _info) ∧
  ∃ r, Update fs _info this ecm = Some r ∧
       batch (ur_this r) = Log_QueryMessages lg 0 (simTime _info).
Proof.
  intros Hback Hstarted Hlog Hem.
  pose proof (seekWindow_backward _info ecm Hback) as Hw.
  assert (dt _info ≠ 0) as Hdt by (unfold tPrev in Hback; lia).
  split; [exact Hw | split].
  - unfold Update.
    rewrite (proj2 (Z.eqb_neq _ _) Hdt), Hstarted, Hlog, Hw. reflexivity.
  - destruct (Update_started fs _info this ecm lg em Hdt Hstarted Hlog Hem)
      as [Hup Hthis].
    eexists. split; [exact Hup |].
    simpl. rewrite Hthis, Hw. reflexivity.
Qed.

End Step.

Section Reconciliation.

Context `{C : Collaborators}.

Implicit Types (this : LogPlaybackPrivate) (ecm : EntityComponentManager).


Lemma elem_of_removedBy (e : Entity) (rs : list SerializedEntity) :
  e ∈ removedBy rs ↔ ∃ r, r ∈ rs ∧ se_id r = e ∧ se_remove r = true.
Proof.
  unfold removedBy. rewrite elem_of_list_to_set, list_elem_of_fmap.
  setoid_rewrite list_elem_of_filter. naive_solver.
Qed.








End Reconciliation.


Section ForwardAndEnd.

Context `{C : Collaborators}.

Implicit Types (this : LogPlaybackPrivate) (ecm : EntityComponentManager).

(** C10. On a forward step ([tPrev < tNow]) of a started instance the
    rewind flag is off and the set of entities to be removed is empty from
    the query to the removal loop, so that loop requests nothing: the
    removals pending after the step are those pending before it and those
    the removal records of the window schedule.  No entity leaves the
    world, and for an entity of the world that no record of the window
    mentions the pending removals are unchanged. *)
Theorem forward_step_removes_nothing (fs : FS) (_info : UpdateInfo) this ecm
    (lg : Log) (em : N) :
  tPrev _info < simTime _info →
  instStarted this = true →
  log this = Some lg →
  eventManager this = Some em →
  let q := Log_QueryMessages lg (tPrev _info) (simTime _info) in
  seekWindow _info ecm = (false, ∅, tPrev _info, simTime _info) ∧
  (foldl (playMessage fs false) (set_batch this q, ecm, ∅) q).2 = ∅ ∧
  (∀ ecm', removeEntities ecm' ∅ = ecm') ∧
  ∃ r, Update fs _info this ecm = Some r ∧
       ecm_toRemove (ur_ecm r) = removedBy (batchRecords q) ∪ ecm_toRemove ecm ∧
       ecm_entities ecm ⊆ ecm_entities (ur_ecm r) ∧
       (∀ e : Entity,
           e ∈ ecm_entities ecm →
           e ∉ se_id <$> batchRecords q →
           e ∈ ecm_entities (ur_ecm r) ∧
           (e ∈ ecm_toRemove (ur_ecm r) ↔ e ∈ ecm_toRemove ecm)).
Proof.
  intros Hfwd Hstarted Hlog Hem q.
  assert (dt _info ≠ 0) as Hdt by (unfold tPrev in Hfwd; lia).
  pose proof (seekWindow_forward _info ecm Hfwd) as Hw.
  destruct (Update_started fs _info this ecm lg em Hdt Hstarted Hlog Hem)
    as [Hup _].
  rewrite Hw in Hup. simpl in Hup. fold q in Hup.
  destruct (playBatch_spec fs false q (set_batch this q) ecm ∅)
    as (_ & Hents & Hrem & Hset).
  simpl in Hset.
  assert (∀ ecm', removeEntities ecm' ∅ = ecm') as Hnone.
  { intros ecm'. rewrite removeEntities_spec, (left_id_L ∅ (∪)). by destruct ecm'. }
  split; [exact Hw | split; [exact Hset | split; [exact Hnone |]]].
  set (b := foldl (playMessage fs false) (set_batch this q, ecm, ∅) q) in *.
  destruct (particleEmitterPass_world (ECM.Each b.1.2 TParticleEmitterCmd)
              b.1.1 b.1.2) as (Hpe & _ & Hpr).
  fold (detectChanges b.1.1 b.1.2) in Hpe, Hpr.
  eexists. split; [exact Hup |]. simpl.
  rewrite Hset, Hnone, Hpe, Hpr, Hents, Hrem.
  split; [done | split; [apply union_subseteq_r |]].
  intros e He Hnm. split; [by apply elem_of_union_r |].
  rewrite elem_of_union, elem_of_removedBy. split; [| by right].
  intros [(r & Hin & Hid & _) | Hr]; [| done].
  exfalso. apply Hnm, list_elem_of_fmap. eauto.
Qed.

(** The signals of a step and the members that carry over to the next. *)
Lemma Update_signals (fs : FS) (_info : UpdateInfo) this ecm (lg : Log) (em : N) :
  dt _info ≠ 0 →
  instStarted this = true →
  log this = Some lg →
  eventManager this = Some em →
  ∃ r, Update fs _info this ecm = Some r ∧
       ur_events r =
         (if bool_decide (Log_EndTime lg ≤ simTime _info) then [Pause true] else []) ∧
       printedEnd (ur_this r) = printedEnd this ∧
       instStarted (ur_this r) = true ∧
       log (ur_this r) = Some lg ∧
       eventManager (ur_this r) = Some em.
Proof.
  intros Hdt Hstarted Hlog Hem.
  destruct (Update_started fs _info this ecm lg em Hdt Hstarted Hlog Hem)
    as [Hup Hthis].
  eexists. split; [exact Hup |]. simpl.
  split; [done |]. rewrite Hthis. simpl. done.
Qed.

(** C3, as the code has it.  A started instance emits the pause signal on
    every step whose time is at or past the end of the log, and on no other
    step; the flag [printedEnd] is never written, and the instance is again
    started, with the same log and event manager, for the next step. *)
Theorem pause_on_every_step_at_end (fs : FS) (_info : UpdateInfo) this ecm
    (lg : Log) (em : N) :
  dt _info ≠ 0 →
  instStarted this = true →
  log this = Some lg →
  eventManager this = Some em →
  ∃ r, Update fs _info this ecm = Some r ∧
       ur_events r =
         (if bool_decide (Log_EndTime lg ≤ simTime _info) then [Pause true] else []) ∧
       printedEnd (ur_this r) = printedEnd this ∧
       instStarted (ur_this r) = true ∧
       log (ur_this r) = Some lg ∧
       eventManager (ur_this r) = Some em.
Proof. apply Update_signals. Qed.

End ForwardAndEnd.

(** C3, as the specification words it, fails: on the demo log, which ends at
    5 s, the step to 5 s emits the pause signal and the step to 6 s emits it
    again. *)
Lemma pause_is_emitted_again : ¬ pauseOncePerCrossing.
Proof.
  intros Hspec.
  pose (info1 := mkUpdateInfo (5 * Simple.sec) Simple.sec).
  pose (info2 := mkUpdateInfo (6 * Simple.sec) Simple.sec).
  destruct (Update_signals (C := Simple.collaborators) Simple.demoFS info1
              Simple.demoThis Simple.demoECM Simple.demoLog 7%N)
    as (r1 & Hup1 & Hev1 & _ & Hs1 & Hl1 & Hm1); [done | done | done | done |].
  destruct (Update_signals (C := Simple.collaborators) Simple.demoFS info2
              (ur_this r1) (ur_ecm r1) Simple.demoLog 7%N)
    as (r2 & Hup2 & Hev2 & _); [done | done | done | done |].
  assert (ur_events r2 = []) as Hnone.
  { by apply (Hspec Simple.collaborators Simple.demoFS info1 info2
                Simple.demoThis Simple.demoECM Simple.demoLog r1 r2). }
  rewrite Hnone in Hev2. discriminate Hev2.
Qed.

(** ** Single playback instance *)

Section SingleInstance.

Context `{C : Collaborators}.

Implicit Types (this : LogPlaybackPrivate) (ecm : EntityComponentManager).

Lemma ExtractStateAndResources_members (fs : FS) this :
  let this' := (ExtractStateAndResources fs this).2 in
  log this' = log this ∧ batch this' = batch this ∧
  instStarted this' = instStarted this.
Proof.
  unfold ExtractStateAndResources.
  destruct (StdString.find_last_of _ _); simpl;
    destruct (Zip_Extract _ _ _) as [[] fs']; done.
Qed.

(** C7. While a playback instance is started, [Start] is a no-op: it
    reports success and returns the instance, the world and the
    process-wide flag as they were, so no log is opened and nothing is
    played.  [Configure], which calls it, then opens no log either, starts
    nothing, leaves the process-wide flag set and leaves the entities, the
    components and the pending removals of the world as they were. *)
Theorem second_start_is_rejected (fs : FS) this ecm (playback_path : string)
    (_eventMgr : N) :
  Start fs true this ecm = mkStartResult true true this ecm ∧
  startUnlessStarted fs true this ecm = mkConfigureResult fs true this ecm ∧
  let r := Configure fs true this playback_path _eventMgr ecm in
  cr_started r = true ∧
  log (cr_this r) = log this ∧
  batch (cr_this r) = batch this ∧
  instStarted (cr_this r) = instStarted this ∧
  ecm_entities (cr_ecm r) = ecm_entities ecm ∧
  ecm_components (cr_ecm r) = ecm_components ecm ∧
  ecm_toRemove (cr_ecm r) = ecm_toRemove ecm ∧
  ecm_oneTimeChanges (cr_ecm r) = ecm_oneTimeChanges ecm.
Proof.
  split; [reflexivity | split; [reflexivity |]].
  unfold Configure.
  set (this0 := set_logPath _ _).
  destruct (common_isFile fs (logPath this0)); [| done].
  destruct (negb _); [done |].
  pose proof (ExtractStateAndResources_members fs this0) as Hx.
  destruct (ExtractStateAndResources fs this0) as [[ok fs'] this1].
  simpl in Hx. destruct Hx as (Hlog & Hbatch & Hst).
  destruct ok; simpl; by rewrite ?Hlog, ?Hbatch, ?Hst.
Qed.

End SingleInstance.

(** ** Change detection *)

Section ChangeDetection.

Context `{C : Collaborators}.

Implicit Types (this : LogPlaybackPrivate) (ecm : EntityComponentManager).

Lemma elem_of_Each ecm (t : ComponentTypeId) (e : Entity) (v : ComponentValue) :
  (e, v) ∈ ECM.Each ecm t ↔ ecm_components ecm !! (e, t) = Some v.
Proof.
  unfold ECM.Each. rewrite list_elem_of_omap. split.
  - intros ([[e' t'] v'] & Hin & Hf). simpl in Hf.
    case_decide; simplify_eq. by apply elem_of_map_to_list in Hin.
  - intros Hl. exists ((e, t), v). split; [by apply elem_of_map_to_list |].
    simpl. by rewrite decide_True.
Qed.

Lemma NoDup_Each ecm (t : ComponentTypeId) : NoDup (ECM.Each ecm t).*1.
Proof.
  unfold ECM.Each.
  pose proof (NoDup_fst_map_to_list (ecm_components ecm)) as Hnd.
  induction (map_to_list (ecm_components ecm)) as [|[[e' t'] v'] l IH];
    simpl in *; [constructor |].
  apply NoDup_cons in Hnd as [Hnotin Hnd].
  case_decide; simpl; [| by apply IH].
  subst t'. apply NoDup_cons. split; [| by apply IH].
  intros Hin. apply Hnotin.
  apply list_elem_of_fmap in Hin as ([e2 v2] & -> & Hin).
  apply list_elem_of_omap in Hin as ([[e3 t3] v3] & Hin3 & Hf). simpl in Hf.
  case_decide; simplify_eq. simpl.
  apply list_elem_of_fmap. by exists ((e2, t), v2).
Qed.

Lemma changeMarks_SetChanged ecm (e e0 : Entity) :
  changeMarks (ECM.SetChanged ecm e0 TParticleEmitterCmd) e =
    (changeMarks ecm e + if decide (e0 = e) then 1 else 0)%nat.
Proof.
  unfold changeMarks, ECM.SetChanged. simpl.
  rewrite filter_app, length_app, filter_cons, filter_nil.
  destruct (decide (e0 = e)) as [->|Hne].
  - by rewrite decide_True.
  - rewrite decide_False; [done | congruence].
Qed.

(** One call of the callback, seen from an entity [e]. *)
Lemma particleEmitterCallback_spec this ecm (e0 e : Entity) (c : ComponentValue) :
  let r := particleEmitterCallback (this, ecm) (e0, c) in
  match c with
  | CParticleEmitterCmd v =>
      if decide (e0 = e) then
        prevParticleEmitterCmds r.1 !! e = Some v ∧
        changeMarks r.2 e =
          (changeMarks ecm e + edgeOf (prevParticleEmitterCmds this !! e) v)%nat
      else
        prevParticleEmitterCmds r.1 !! e = prevParticleEmitterCmds this !! e ∧
        changeMarks r.2 e = changeMarks ecm e
  | _ => r = (this, ecm)
  end.
Proof.
  unfold particleEmitterCallback. simpl.
  destruct c as [| | | | v |]; try done.
  destruct (decide (e0 = e)) as [Heq|Hne].
  - subst e0.
    destruct (prevParticleEmitterCmds this !! e) as [p|] eqn:Hp; simpl.
    + destruct (Bool.eqb p v) eqn:Hpv; simpl.
      * apply Bool.eqb_prop in Hpv as ->. split; [done | lia].
      * by rewrite lookup_insert_eq, changeMarks_SetChanged, decide_True.
    + rewrite lookup_insert_eq. split; [done | lia].
  - destruct (prevParticleEmitterCmds this !! e0) as [p|] eqn:Hp; simpl.
    + destruct (Bool.eqb p v) eqn:Hpv; simpl; [done |].
      rewrite lookup_insert_ne, changeMarks_SetChanged, decide_False by done.
      split; [done | lia].
    + by rewrite lookup_insert_ne.
Qed.

(** A pass over entities without repetition, seen from an entity [e]. *)
Lemma particleEmitterPass_spec (l : list (Entity * ComponentValue)) this ecm
    (e : Entity) :
  NoDup l.*1 →
  let r := foldl particleEmitterCallback (this, ecm) l in
  (∀ v, (e, CParticleEmitterCmd v) ∈ l →
        prevParticleEmitterCmds r.1 !! e = Some v ∧
        changeMarks r.2 e =
          (changeMarks ecm e + edgeOf (prevParticleEmitterCmds this !! e) v)%nat) ∧
  ((∀ v, (e, CParticleEmitterCmd v) ∉ l) →
        prevParticleEmitterCmds r.1 !! e = prevParticleEmitterCmds this !! e ∧
        changeMarks r.2 e = changeMarks ecm e).
Proof.
  revert this ecm. induction l as [|[e0 c] l IH]; intros this ecm Hnd; simpl.
  - split; [intros v Hin; by apply elem_of_nil in Hin | done].
  - simpl in Hnd. apply NoDup_cons in Hnd as [Hnotin Hnd].
    pose proof (particleEmitterCallback_spec this ecm e0 e c) as Hcb.
    destruct (particleEmitterCallback (this, ecm) (e0, c)) as [this1 ecm1] eqn:Hr.
    simpl in Hcb.
    specialize (IH this1 ecm1 Hnd). simpl in IH. destruct IH as [IHin IHout].
    split.
    + intros v [Heq | Hin]%elem_of_cons.
      * injection Heq as Heq1 Heq2. subst e0 c.
        rewrite decide_True in Hcb by done.
        destruct Hcb as [Hp Hm].
        destruct IHout as [-> ->]; [| done].
        intros v' Hin'. apply Hnotin, list_elem_of_fmap.
        by exists (e, CParticleEmitterCmd v').
      * assert (e0 ≠ e) as Hne.
        { intros Heq. subst e0. apply Hnotin, list_elem_of_fmap.
          by exists (e, CParticleEmitterCmd v). }
        destruct (IHin v Hin) as [-> ->].
        destruct c as [| | | | v0 |]; try (by injection Hcb as <- <-).
        rewrite decide_False in Hcb by done. by destruct Hcb as [-> ->].
    + intros Hout.
      destruct IHout as [-> ->].
      { intros v Hin. apply (Hout v). by right. }
      destruct c as [| | | | v |]; try (by injection Hcb as <- <-).
      rewrite decide_False in Hcb; [by destruct Hcb as [-> ->] |].
      intros Heq. subst e0. apply (Hout v). by left.
Qed.

End ChangeDetection.


(** ** Replay of diffs *)

Section Replay.

Lemma applyDelta_compose (later earlier : Delta) (ecm : EntityComponentManager) :
  applyDelta later (applyDelta earlier ecm) =
    applyDelta (composeDelta later earlier) ecm.
Proof.
  unfold applyDelta, composeDelta. simpl.
  by rewrite !(assoc_L (∪)).
Qed.

Lemma applyDelta_idemp (d : Delta) (ecm : EntityComponentManager) :
  applyDelta d (applyDelta d ecm) = applyDelta d ecm.
Proof.
  unfold applyDelta. simpl.
  by rewrite !(assoc_L (∪)), !(idemp_L (∪)).
Qed.

Lemma applyDelta_empty (ecm : EntityComponentManager) :
  applyDelta (mkDelta ∅ ∅ ∅) ecm = ecm.
Proof.
  unfold applyDelta. simpl. rewrite !(left_id_L ∅ (∪)). by destruct ecm.
Qed.

(** A fold of steps that each amount to a delta amounts to a delta. *)
Lemma foldl_delta {A : Type} (f : EntityComponentManager → A → EntityComponentManager)
    (l : list A) :
  (∀ a, ∃ d, ∀ ecm, f ecm a = applyDelta d ecm) →
  ∃ d, ∀ ecm, foldl f ecm l = applyDelta d ecm.
Proof.
  intros Hf. induction l as [|a l IH] using rev_ind.
  - exists (mkDelta ∅ ∅ ∅). intros ecm. by rewrite applyDelta_empty.
  - destruct IH as [d1 Hd1]. destruct (Hf a) as [d2 Hd2].
    exists (composeDelta d2 d1). intros ecm.
    by rewrite foldl_app, <- applyDelta_compose, <- Hd1, <- Hd2.
Qed.

Lemma SetStateComponent_delta (e : Entity) (c : SerializedComponent) :
  ∃ d, ∀ ecm, ECM.SetStateComponent e ecm c = applyDelta d ecm.
Proof.
  destruct c as [v | tag payload].
  - exists (mkDelta ∅ {[ (e, typeId v) := v ]} ∅). intros ecm.
    unfold applyDelta, ECM.SetStateComponent, ECM.CreateComponent,
      ECM.set_components. simpl.
    by rewrite !(left_id_L ∅ (∪)), insert_union_singleton_l.
  - exists (mkDelta ∅ ∅ ∅). intros ecm. by rewrite applyDelta_empty.
Qed.

Lemma SetStateEntity_delta (r : SerializedEntity) :
  ∃ d, ∀ ecm, ECM.SetStateEntity ecm r = applyDelta d ecm.
Proof.
  unfold ECM.SetStateEntity. destruct (se_remove r).
  - exists (mkDelta ∅ ∅ {[ se_id r ]}). intros ecm.
    unfold applyDelta, ECM.RequestRemoveEntity. simpl.
    by rewrite !(left_id_L ∅ (∪)).
  - destruct (foldl_delta (ECM.SetStateComponent (se_id r)) (se_components r)
                (SetStateComponent_delta (se_id r))) as [d Hd].
    exists (composeDelta d (mkDelta {[ se_id r ]} ∅ ∅)). intros ecm.
    rewrite Hd, <- applyDelta_compose. f_equal.
    unfold applyDelta, ECM.HasEntity, ECM.CreateEntity. simpl.
    rewrite !(left_id_L ∅ (∪)).
    case_bool_decide as Hin; [| done].
    destruct ecm as [ents comps rem marks off]. simpl in *.
    f_equal. set_solver.
Qed.

Lemma replay_delta (diffs : list SerializedState) :
  ∃ d, ∀ ecm, replay ecm diffs = applyDelta d ecm.
Proof.
  unfold replay. apply foldl_delta. intros msg.
  unfold ECM.SetState. apply foldl_delta, SetStateEntity_delta.
Qed.

End Replay.

(** ** The rewriting pass over the world *)

Section RewritingPass.

Context `{C : Collaborators}.

Implicit Types (this : LogPlaybackPrivate) (ecm : EntityComponentManager).

Lemma geometryCallback_generic (fs : FS) st (ev : Entity * ComponentValue) :
  geometryCallback fs st ev = rewriteCallback fs TGeometry st ev.
Proof.
  destruct st as [this ecm]. unfold geometryCallback, rewriteCallback, uriOf.
  destruct ev.2 as [| | [mesh|] | | |]; try done. simpl.
  destruct (StdString.empty (meshUri mesh)); simpl; [done |].
  by destruct (PrependLogPath fs this (meshUri mesh)).
Qed.

Lemma materialCallback_generic (fs : FS) st (ev : Entity * ComponentValue) :
  materialCallback fs st ev = rewriteCallback fs TMaterial st ev.
Proof.
  destruct st as [this ecm]. unfold materialCallback, rewriteCallback, uriOf.
  destruct ev.2 as [| | | matSdf | |]; try done. simpl.
  destruct (StdString.empty (scriptUri matSdf)); simpl; [done |].
  by destruct (PrependLogPath fs this (scriptUri matSdf)).
Qed.

Lemma foldl_ext_pointwise {A B : Type} (f g : A → B → A) (l : list B) (a : A) :
  (∀ a b, f a b = g a b) → foldl f a l = foldl g a l.
Proof.
  intros Hfg. revert a. induction l as [|b l IH]; intros a; simpl; [done |].
  by rewrite Hfg, IH.
Qed.

Lemma ReplaceResourceURIs_generic (fs : FS) this ecm :
  ReplaceResourceURIs fs this ecm =
    if negb (doReplaceResourceURIs this) then (this, ecm)
    else
      let st := foldl (rewriteCallback fs TGeometry) (this, ecm) (ECM.Each ecm TGeometry) in
      foldl (rewriteCallback fs TMaterial) st (ECM.Each st.2 TMaterial).
Proof.
  unfold ReplaceResourceURIs. destruct (negb _); [done |]. simpl.
  rewrite (foldl_ext_pointwise _ _ _ _ (geometryCallback_generic fs)).
  apply foldl_ext_pointwise, materialCallback_generic.
Qed.

Lemma typeId_withUri (t : ComponentTypeId) (c : ComponentValue) (u u' : string) :
  uriOf t c = Some u → typeId (withUri c u') = t.
Proof.
  unfold uriOf.
  destruct t, c as [| | [mesh|] | matSdf | |]; try done.
Qed.

Lemma PrependLogPath_flag_cases (fs : FS) this (u : string) :
  (PrependLogPath fs this u).2 = this ∨
  doReplaceResourceURIs (PrependLogPath fs this u).2 = false.
Proof.
  rewrite PrependLogPath_unfold. repeat case_match; simpl; auto.
Qed.

(** A call that meets a URI that resolves writes the rewritten value. *)
Lemma rewriteCallback_resolves (fs : FS) (t : ComponentTypeId) this ecm
    (e : Entity) (c : ComponentValue) :
  ecm_components ecm !! (e, t) = Some c →
  resolves fs this t c →
  rewriteCallback fs t (this, ecm) (e, c) =
    (this, ECM.set_components ecm (<[(e, t) := rewritten fs this t c]> (ecm_components ecm))).
Proof.
  intros Hl Hok. unfold rewriteCallback, rewritten. simpl.
  destruct (uriOf t c) as [u|] eqn:Hu.
  - rewrite (Hok u Hu). unfold ECM.CreateComponent.
    by rewrite (typeId_withUri t c u _ Hu).
  - rewrite insert_id by done. by destruct ecm.
Qed.

Lemma rewriteCallback_disabled (fs : FS) (t : ComponentTypeId) this ecm
    (ev : Entity * ComponentValue) :
  doReplaceResourceURIs this = false →
  doReplaceResourceURIs (rewriteCallback fs t (this, ecm) ev).1 = false.
Proof.
  intros Hoff. unfold rewriteCallback. simpl.
  destruct (uriOf t ev.2); [| done]. simpl.
  by rewrite PrependLogPath_disabled.
Qed.

Lemma rewritePass_disabled (fs : FS) (t : ComponentTypeId)
    (l : list (Entity * ComponentValue)) this ecm :
  doReplaceResourceURIs this = false →
  doReplaceResourceURIs (foldl (rewriteCallback fs t) (this, ecm) l).1 = false.
Proof.
  revert this ecm. induction l as [|ev l IH]; intros this ecm Hoff; simpl; [done |].
  pose proof (rewriteCallback_disabled fs t this ecm ev Hoff) as H1.
  destruct (rewriteCallback fs t (this, ecm) ev) as [this1 ecm1]. by apply IH.
Qed.

(** A call that leaves rewriting enabled met a URI that resolves. *)
Lemma rewriteCallback_enabled (fs : FS) (t : ComponentTypeId) this ecm
    (e : Entity) (c : ComponentValue) :
  doReplaceResourceURIs this = true →
  doReplaceResourceURIs (rewriteCallback fs t (this, ecm) (e, c)).1 = true →
  resolves fs this t c.
Proof.
  intros Hon Hstill u Hu. unfold rewriteCallback in Hstill. simpl in Hstill.
  rewrite Hu in Hstill. simpl in Hstill.
  destruct (PrependLogPath_flag_cases fs this u) as [Hsame | Hoff]; [done |].
  congruence.
Qed.

(** A pass all of whose URIs resolve rewrites every component it visits
    and touches no other. *)
Lemma rewritePass_resolves (fs : FS) (t : ComponentTypeId)
    (l : list (Entity * ComponentValue)) this ecm :
  NoDup l.*1 →
  (∀ e c, (e, c) ∈ l → ecm_components ecm !! (e, t) = Some c) →
  (∀ e c, (e, c) ∈ l → resolves fs this t c) →
  ∃ ecm',
    foldl (rewriteCallback fs t) (this, ecm) l = (this, ecm') ∧
    sameButComponents ecm ecm' ∧
    ∀ k, ecm_components ecm' !! k =
           if decide (k.2 = t ∧ k.1 ∈ l.*1)
           then rewritten fs this t <$> ecm_components ecm !! k
           else ecm_components ecm !! k.
Proof.
  revert ecm. induction l as [|[e c] l IH]; intros ecm Hnd Hagree Hok; simpl.
  - exists ecm. split; [done | split; [apply sameButComponents_refl |]].
    intros k. rewrite decide_False; [done |]. intros [_ Hin]. by apply elem_of_nil in Hin.
  - simpl in Hnd. apply NoDup_cons in Hnd as [Hnotin Hnd].
    rewrite (rewriteCallback_resolves fs t this ecm e c);
      [| apply Hagree; by left | apply (Hok e c); by left].
    set (ecm1 := ECM.set_components ecm _).
    destruct (IH ecm1) as (ecm' & Hfold & Hsame & Hlook); [done | |  |].
    { intros e2 c2 Hin. subst ecm1. simpl.
      rewrite lookup_insert_ne; [apply Hagree; by right |].
      intros [= ->]. apply Hnotin, list_elem_of_fmap. by exists (e2, c2). }
    { intros e2 c2 Hin. apply (Hok e2 c2). by right. }
    exists ecm'. split; [exact Hfold | split].
    { eapply sameButComponents_trans; [| exact Hsame]. by destruct ecm. }
    intros k. rewrite Hlook. subst ecm1. simpl.
    destruct (decide (k = (e, t))) as [-> | Hne].
    + simpl. rewrite decide_False by (intros [_ Hin]; done).
      rewrite decide_True by (split; [done | by left]).
      rewrite lookup_insert_eq, (Hagree e c) by (by left). done.
    + rewrite lookup_insert_ne by done.
      destruct (decide (k.2 = t ∧ k.1 ∈ l.*1)) as [[Ht Hin] | Hno].
      * rewrite decide_True; [done |]. split; [done | by right].
      * rewrite decide_False; [done |].
        intros [Ht [Heq | Hin]%elem_of_cons]; [| by apply Hno].
        apply Hne. destruct k as [k1 k2]. simpl in *. by subst.
Qed.

(** A pass that leaves rewriting enabled met only URIs that resolve. *)
Lemma rewritePass_enabled (fs : FS) (t : ComponentTypeId)
    (l : list (Entity * ComponentValue)) this ecm :
  doReplaceResourceURIs this = true →
  doReplaceResourceURIs (foldl (rewriteCallback fs t) (this, ecm) l).1 = true →
  ∀ e c, (e, c) ∈ l → resolves fs this t c.
Proof.
  revert ecm. induction l as [|[e0 c0] l IH]; intros ecm Hon Hstill e c Hin.
  { by apply elem_of_nil in Hin. }
  simpl in Hstill.
  destruct (rewriteCallback fs t (this, ecm) (e0, c0)) as [this1 ecm1] eqn:Hstep.
  destruct (doReplaceResourceURIs this1) eqn:Hon1.
  - assert (resolves fs this t c0) as Hok0.
    { apply (rewriteCallback_enabled fs t this ecm e0 c0 Hon). by rewrite Hstep. }
    assert (this1 = this) as ->.
    { unfold rewriteCallback in Hstep. simpl in Hstep.
      destruct (uriOf t c0) as [u|] eqn:Hu; [| by simplify_eq].
      injection Hstep as <- _. by apply Hok0. }
    apply elem_of_cons in Hin as [[= -> ->] | Hin]; [done |].
    exact (IH ecm1 Hon Hstill e c Hin).
  - by rewrite (rewritePass_disabled fs t l this1 ecm1 Hon1) in Hstill.
Qed.

Lemma elem_of_Each_keys ecm (t : ComponentTypeId) (e : Entity) :
  e ∈ (ECM.Each ecm t).*1 ↔ is_Some (ecm_components ecm !! (e, t)).
Proof.
  rewrite list_elem_of_fmap. split.
  - intros ([e' c] & -> & Hin). apply elem_of_Each in Hin. eauto.
  - intros [c Hc]. exists (e, c). split; [done |]. by apply elem_of_Each.
Qed.

Lemma rewritten_other (fs : FS) this (t : ComponentTypeId) (c : ComponentValue) :
  t ≠ TGeometry → t ≠ TMaterial → rewritten fs this t c = c.
Proof. intros H1 H2. unfold rewritten, uriOf. by destruct t. Qed.

Lemma resolves_other (fs : FS) this (t : ComponentTypeId) (c : ComponentValue) :
  t ≠ TGeometry → t ≠ TMaterial → resolves fs this t c.
Proof. intros H1 H2 u. unfold uriOf. by destruct t. Qed.

Lemma lookup_rewrittenMap (fs : FS) this
    (m : gmap (Entity * ComponentTypeId) ComponentValue) (k : Entity * ComponentTypeId) :
  rewrittenMap fs this m !! k = rewritten fs this k.2 <$> m !! k.
Proof. unfold rewrittenMap. rewrite map_lookup_imap. by destruct (m !! k). Qed.

(** One pass of a type, over the whole world. *)
Lemma rewritePass_world (fs : FS) (t : ComponentTypeId) this ecm :
  (∀ e c, ecm_components ecm !! (e, t) = Some c → resolves fs this t c) →
  ∃ ecm',
    foldl (rewriteCallback fs t) (this, ecm) (ECM.Each ecm t) = (this, ecm') ∧
    sameButComponents ecm ecm' ∧
    ∀ k, ecm_components ecm' !! k =
           if decide (k.2 = t)
           then rewritten fs this t <$> ecm_components ecm !! k
           else ecm_components ecm !! k.
Proof.
  intros Hok.
  destruct (rewritePass_resolves fs t (ECM.Each ecm t) this ecm)
    as (ecm' & Hfold & Hsame & Hlook).
  - apply NoDup_Each.
  - intros e c. apply elem_of_Each.
  - intros e c Hin. apply (Hok e c). by apply elem_of_Each.
  - exists ecm'. split; [done | split; [done |]].
    intros [e t']. rewrite Hlook. simpl.
    destruct (decide (t' = t)) as [-> | Hne].
    + destruct (decide (e ∈ (ECM.Each ecm t).*1)) as [Hin | Hnot].
      * by rewrite decide_True.
      * rewrite decide_False by (by intros [_ ?]).
        rewrite elem_of_Each_keys in Hnot.
        destruct (ecm_components ecm !! (e, t)) eqn:Hl; [| done].
        exfalso. apply Hnot. eauto.
    + by rewrite decide_False by (by intros [? _]).
Qed.

(** With rewriting enabled and every URI resolving, [ReplaceResourceURIs]
    rewrites every component and leaves the instance as it is. *)
Lemma ReplaceResourceURIs_resolves (fs : FS) this ecm :
  doReplaceResourceURIs this = true →
  allResolve fs this (ecm_components ecm) →
  ReplaceResourceURIs fs this ecm =
    (this, ECM.set_components ecm (rewrittenMap fs this (ecm_components ecm))).
Proof.
  intros Hon Hok. rewrite ReplaceResourceURIs_generic, Hon. simpl.
  destruct (rewritePass_world fs TGeometry this ecm) as (ecmG & HfoldG & HsameG & HlookG).
  { intros e c Hl. apply (Hok (e, TGeometry) c Hl). }
  rewrite HfoldG. simpl.
  destruct (rewritePass_world fs TMaterial this ecmG) as (ecmM & HfoldM & HsameM & HlookM).
  { intros e c Hl. rewrite HlookG in Hl. simpl in Hl.
    apply (Hok (e, TMaterial) c Hl). }
  rewrite HfoldM. f_equal.
  pose proof (sameButComponents_trans _ _ _ HsameG HsameM) as Hsame.
  rewrite Hsame. unfold ECM.set_components. simpl. f_equal.
  apply map_eq. intros [e t]. rewrite lookup_rewrittenMap, HlookM, HlookG. simpl.
  destruct (decide (t = TMaterial)) as [-> | HneM]; [done |].
  destruct (decide (t = TGeometry)) as [-> | HneG]; [done |].
  destruct (ecm_components ecm !! (e, t)) as [c|]; [| done]. simpl.
  by rewrite rewritten_other.
Qed.

(** When [ReplaceResourceURIs] leaves rewriting enabled, every URI of the
    world resolved. *)
Lemma ReplaceResourceURIs_enabled (fs : FS) this ecm :
  doReplaceResourceURIs this = true →
  doReplaceResourceURIs (ReplaceResourceURIs fs this ecm).1 = true →
  allResolve fs this (ecm_components ecm).
Proof.
  intros Hon. rewrite ReplaceResourceURIs_generic, Hon. simpl. intros Hstill.
  destruct (doReplaceResourceURIs
              (foldl (rewriteCallback fs TGeometry) (this, ecm)
                 (ECM.Each ecm TGeometry)).1) eqn:HonG.
  2:{ destruct (foldl (rewriteCallback fs TGeometry) (this, ecm) _) as [thisG ecmG].
      by rewrite (rewritePass_disabled fs TMaterial _ thisG ecmG HonG) in Hstill. }
  pose proof (rewritePass_enabled fs TGeometry _ this ecm Hon HonG) as HokG.
  destruct (rewritePass_world fs TGeometry this ecm) as (ecmG & HfoldG & HsameG & HlookG).
  { intros e c Hl. apply (HokG e c). by apply elem_of_Each. }
  rewrite HfoldG in Hstill. simpl in Hstill.
  pose proof (rewritePass_enabled fs TMaterial _ this ecmG Hon Hstill) as HokM.
  intros [e t] c Hl. simpl.
  destruct (decide (t = TGeometry)) as [-> | HneG].
  { apply (HokG e c). by apply elem_of_Each. }
  destruct (decide (t = TMaterial)) as [-> | HneM].
  { apply (HokM e c). apply elem_of_Each. rewrite HlookG. simpl. done. }
  by apply resolves_other.
Qed.

Lemma uriOf_withUri (t : ComponentTypeId) (c : ComponentValue) (u u' : string) :
  uriOf t c = Some u →
  uriOf t (withUri c u') = if StdString.empty u' then None else Some u'.
Proof.
  unfold uriOf. destruct t, c as [| | [mesh|] | matSdf | |]; try done.
Qed.

Lemma withUri_withUri (c : ComponentValue) (a b : string) :
  withUri (withUri c a) b = withUri c b.
Proof. by destruct c as [| | [mesh|] | matSdf | |]. Qed.

(** What rewriting wrote is left alone by rewriting, provided joining keeps
    the log path in front of the joined path. *)
Lemma rewritten_settled (fs : FS) this (t : ComponentTypeId) (c : ComponentValue) :
  (∀ q, ∃ r, common_joinPaths (logPath this) q = logPath this +:+ r) →
  resolves fs this t c →
  rewritten fs this t (rewritten fs this t c) = rewritten fs this t c ∧
  resolves fs this t (rewritten fs this t c).
Proof.
  intros Hjoin Hok.
  assert (∀ c', rewritten fs this t c = c' →
            rewritten fs this t c' = c' ∧ resolves fs this t c') as Hgen.
  2:{ by apply Hgen. }
  intros c' <-. unfold rewritten at 2 3 4.
  destruct (uriOf t c) as [u|] eqn:Hu.
  - specialize (Hok u Hu).
    destruct (PrependLogPath fs this u) as [u' this'] eqn:Hp. simpl in *. subst this'.
    pose proof (PrependLogPath_twice fs this u u' this Hjoin Hp) as Hagain.
    unfold rewritten, resolves. rewrite (uriOf_withUri t c u u' Hu).
    destruct (StdString.empty u'); [done |].
    split.
    + by rewrite Hagain, withUri_withUri.
    + intros ? [= <-]. by rewrite Hagain.
  - unfold rewritten. rewrite Hu. split; [done |]. intros u. by rewrite Hu.
Qed.

Lemma rewrittenMap_settled (fs : FS) this
    (m : gmap (Entity * ComponentTypeId) ComponentValue) :
  (∀ q, ∃ r, common_joinPaths (logPath this) q = logPath this +:+ r) →
  allResolve fs this m →
  rewrittenMap fs this (rewrittenMap fs this m) = rewrittenMap fs this m ∧
  allResolve fs this (rewrittenMap fs this m).
Proof.
  intros Hjoin Hok. split.
  - apply map_eq. intros k. rewrite !lookup_rewrittenMap.
    destruct (m !! k) as [c|] eqn:Hl; [| done]. simpl. f_equal.
    by apply rewritten_settled, (Hok k c).
  - intros k c'. rewrite lookup_rewrittenMap.
    destruct (m !! k) as [c|] eqn:Hl; [| done]. simpl. intros [= <-].
    by apply rewritten_settled, (Hok k c).
Qed.

(** Rewriting the world twice is rewriting it once. *)
Lemma ReplaceResourceURIs_twice (fs : FS) this ecm :
  (∀ q, ∃ r, common_joinPaths (logPath this) q = logPath this +:+ r) →
  ReplaceResourceURIs fs (ReplaceResourceURIs fs this ecm).1
    (ReplaceResourceURIs fs this ecm).2 = ReplaceResourceURIs fs this ecm.
Proof.
  intros Hjoin.
  destruct (doReplaceResourceURIs (ReplaceResourceURIs fs this ecm).1) eqn:Hon1.
  2:{ rewrite ReplaceResourceURIs_disabled by done. by destruct (ReplaceResourceURIs _ _ _). }
  destruct (doReplaceResourceURIs this) eqn:Hon.
  2:{ rewrite (ReplaceResourceURIs_disabled fs this ecm Hon) in Hon1.
      simpl in Hon1. congruence. }
  pose proof (ReplaceResourceURIs_enabled fs this ecm Hon Hon1) as Hok.
  rewrite (ReplaceResourceURIs_resolves fs this ecm Hon Hok). simpl.
  destruct (rewrittenMap_settled fs this (ecm_components ecm) Hjoin Hok) as [Hfix Hok'].
  rewrite ReplaceResourceURIs_resolves; [| done | done]. simpl.
  by rewrite Hfix.
Qed.

End RewritingPass.

(** ** Running a batch again *)

Section BatchAgain.

Context `{C : Collaborators}.

Implicit Types (this : LogPlaybackPrivate) (ecm : EntityComponentManager).

Lemma messageRecords_delta (m : Message) :
  ∃ d, ∀ ecm, foldl ECM.SetStateEntity ecm (messageRecords m) = applyDelta d ecm.
Proof. apply foldl_delta, SetStateEntity_delta. Qed.

(** With rewriting disabled the loop is the application of the diffs. *)
Lemma playBatch_disabled_world (fs : FS) (seekRewind : bool) (b : list Message) this :
  doReplaceResourceURIs this = false →
  ∃ d, ∀ ecm (s : gset Entity),
    (foldl (playMessage fs seekRewind) (this, ecm, s) b).1 = (this, applyDelta d ecm).
Proof.
  intros Hoff. induction b as [|m b IH] using rev_ind.
  - exists (mkDelta ∅ ∅ ∅). intros ecm s. simpl. by rewrite applyDelta_empty.
  - destruct IH as [d1 Hd1]. destruct (messageRecords_delta m) as [d2 Hd2].
    exists (composeDelta d2 d1). intros ecm s.
    rewrite foldl_app. simpl.
    specialize (Hd1 ecm s).
    destruct (foldl (playMessage fs seekRewind) (this, ecm, s) b) as [[this1 ecm1] s1].
    simpl in Hd1. injection Hd1 as -> ->.
    rewrite playMessage_unfold, Hd2, ReplaceResourceURIs_disabled by done. simpl.
    by rewrite applyDelta_compose.
Qed.

(** The loop leaves the change marks and the entity offset alone. *)
Lemma playBatch_marks (fs : FS) (seekRewind : bool) (b : list Message) this ecm
    (s : gset Entity) :
  let r := foldl (playMessage fs seekRewind) (this, ecm, s) b in
  ecm_oneTimeChanges r.1.2 = ecm_oneTimeChanges ecm ∧
  ecm_entityCreateOffset r.1.2 = ecm_entityCreateOffset ecm.
Proof.
  revert this ecm s. induction b as [|m b IH]; intros this ecm s; simpl; [done |].
  rewrite playMessage_unfold.
  destruct (messageRecords_delta m) as [d Hd]. rewrite Hd.
  destruct (ReplaceResourceURIs_frame fs this (applyDelta d ecm)) as [_ Hecm].
  destruct (ReplaceResourceURIs fs this (applyDelta d ecm)) as [this1 ecm1].
  simpl in *.
  specialize (IH this1 ecm1
    (if seekRewind then foldl updateEntitiesToRemove s (messageRecords m) else s)).
  simpl in IH. destruct IH as [-> ->].
  unfold sameButComponents in Hecm. by rewrite Hecm.
Qed.

(** Two runs of the same batch, the second from a world that agrees with the
    first on the slots written so far and with a settled world elsewhere,
    keep agreeing in that way. *)
Lemma runs_agree (fs : FS) (seekRewind : bool) this
    (Wc : gmap (Entity * ComponentTypeId) ComponentValue) :
  (∀ q, ∃ r, common_joinPaths (logPath this) q = logPath this +:+ r) →
  doReplaceResourceURIs this = true →
  settledMap fs this Wc →
  ∀ (b : list Message) (W V : EntityComponentManager) (s s' : gset Entity)
    (M : gset (Entity * ComponentTypeId)),
    (∀ k, ecm_components V !! k =
            if decide (k ∈ M) then ecm_components W !! k else Wc !! k) →
    (∀ k c, k ∈ M → ecm_components W !! k = Some c →
            resolves fs this k.2 c ∧ rewritten fs this k.2 c = c) →
    doReplaceResourceURIs (foldl (playMessage fs seekRewind) (this, W, s) b).1.1 = true →
    ∃ M' : gset (Entity * ComponentTypeId),
      (foldl (playMessage fs seekRewind) (this, W, s) b).1.1 = this ∧
      (foldl (playMessage fs seekRewind) (this, V, s') b).1.1 = this ∧
      ∀ k, ecm_components (foldl (playMessage fs seekRewind) (this, V, s') b).1.2 !! k =
             if decide (k ∈ M')
             then ecm_components (foldl (playMessage fs seekRewind) (this, W, s) b).1.2 !! k
             else Wc !! k.
Proof.
  intros Hjoin Hon [HokC HfixC].
  induction b as [|m b IH]; intros W V s s' M Hagree Hsettled Hstill; simpl in *.
  { exists M. done. }
  rewrite !playMessage_unfold in *.
  destruct (messageRecords_delta m) as [d Hd]. rewrite !Hd in *.
  set (sW := if seekRewind then foldl updateEntitiesToRemove s (messageRecords m) else s) in *.
  set (sV := if seekRewind then foldl updateEntitiesToRemove s' (messageRecords m) else s').
  destruct (doReplaceResourceURIs (ReplaceResourceURIs fs this (applyDelta d W)).1)
    eqn:Hon1.
  2:{ destruct (ReplaceResourceURIs fs this (applyDelta d W)) as [this1 W1]. simpl in *.
      by rewrite (playBatch_disabled fs seekRewind b this1 W1 sW Hon1), Hon1 in Hstill. }
  pose proof (ReplaceResourceURIs_enabled fs this (applyDelta d W) Hon Hon1) as HokW.
  rewrite (ReplaceResourceURIs_resolves fs this (applyDelta d W) Hon HokW) in *.
  simpl in HokW.
  assert (allResolve fs this (ecm_components (applyDelta d V))) as HokV.
  { intros k c. simpl. intros Hl.
    destruct (d_components d !! k) as [c0|] eqn:Hd0.
    - rewrite (lookup_union_Some_l _ _ _ _ Hd0) in Hl. simplify_eq.
      apply (HokW k c). by apply lookup_union_Some_l.
    - rewrite lookup_union_r in Hl by done. rewrite Hagree in Hl.
      case_decide as HM.
      + by apply (Hsettled k c HM).
      + by apply (HokC k c). }
  rewrite (ReplaceResourceURIs_resolves fs this (applyDelta d V) Hon HokV).
  simpl.
  apply (IH _ _ sW sV (M ∪ dom (d_components d))).
  - intros k. simpl. rewrite !lookup_rewrittenMap.
    destruct (d_components d !! k) as [c0|] eqn:Hd0.
    + rewrite decide_True
        by (apply elem_of_union_r, elem_of_dom; eauto).
      by rewrite !(lookup_union_Some_l _ _ _ _ Hd0).
    + rewrite !lookup_union_r by done. rewrite Hagree.
      destruct (decide (k ∈ M)) as [HM | HM].
      * by rewrite decide_True by (by apply elem_of_union_l).
      * rewrite decide_False.
        -- rewrite <- HfixC at 2. by rewrite lookup_rewrittenMap.
        -- intros [? | Hin%elem_of_dom]%elem_of_union; [done |].
           rewrite Hd0 in Hin. by destruct Hin.
  - intros k c _. simpl. rewrite lookup_rewrittenMap.
    destruct ((d_components d ∪ ecm_components W) !! k) as [c0|] eqn:Hl; [| done].
    simpl. intros [= <-].
    destruct (rewritten_settled fs this k.2 c0 Hjoin (HokW k c0 Hl)) as [Hfix Hok].
    done.
  - exact Hstill.
Qed.

Lemma ecm_eq (a b : EntityComponentManager) :
  ecm_entities a = ecm_entities b →
  ecm_components a = ecm_components b →
  ecm_toRemove a = ecm_toRemove b →
  ecm_oneTimeChanges a = ecm_oneTimeChanges b →
  ecm_entityCreateOffset a = ecm_entityCreateOffset b →
  a = b.
Proof. destruct a, b. simpl. by intros -> -> -> -> ->. Qed.

Lemma sameButFlag_same this this' :
  sameButFlag this this' →
  doReplaceResourceURIs this' = doReplaceResourceURIs this →
  this' = this.
Proof. unfold sameButFlag. intros -> Heq. simpl in Heq. destruct this. simpl in *. by subst. Qed.

(** Running the batch again from the state the first run produced gives
    that state again, as long as the first run left the rewriting flag as it
    found it. *)
Lemma playBatch_twice (fs : FS) (seekRewind : bool) (b : list Message) this ecm
    (s s' : gset Entity) :
  (∀ q, ∃ r, common_joinPaths (logPath this) q = logPath this +:+ r) →
  let r1 := foldl (playMessage fs seekRewind) (this, ecm, s) b in
  doReplaceResourceURIs r1.1.1 = doReplaceResourceURIs this →
  (foldl (playMessage fs seekRewind) (r1.1.1, r1.1.2, s') b).1 = r1.1.
Proof.
  intros Hjoin r1 Hflag.
  destruct (doReplaceResourceURIs this) eqn:Hon.
  2:{ destruct (playBatch_disabled_world fs seekRewind b this Hon) as [d Hd].
      subst r1. rewrite (Hd ecm s). simpl. rewrite Hd. by rewrite applyDelta_idemp. }
  destruct (playBatch_spec fs seekRewind b this ecm s) as (Hsame1 & Hents1 & Hrem1 & _).
  fold r1 in Hsame1, Hents1, Hrem1.
  pose proof (sameButFlag_same this r1.1.1 Hsame1 (eq_trans Hflag (eq_sym Hon))) as Hthis1.
  destruct b as [|m0 b0] using rev_ind.
  { subst r1. simpl. done. }
  clear IHb0.
  assert (settledMap fs this (ecm_components r1.1.2)) as Hsettled.
  { subst r1. rewrite foldl_app in *. simpl in *.
    destruct (foldl (playMessage fs seekRewind) (this, ecm, s) b0)
      as [[thisB WB] sB] eqn:HB.
    pose proof (playBatch_spec fs seekRewind b0 this ecm s) as (HsameB & _).
    rewrite HB in HsameB. simpl in HsameB.
    rewrite playMessage_unfold in *. simpl in *.
    destruct (doReplaceResourceURIs thisB) eqn:HonB.
    2:{ rewrite ReplaceResourceURIs_disabled in Hflag by done. simpl in Hflag. congruence. }
    assert (thisB = this) as -> by (apply sameButFlag_same; [done | congruence]).
    set (X := foldl ECM.SetStateEntity WB (messageRecords m0)) in *.
    pose proof (ReplaceResourceURIs_enabled fs this X Hon Hflag) as HokX.
    rewrite (ReplaceResourceURIs_resolves fs this X Hon HokX). simpl.
    destruct (rewrittenMap_settled fs this (ecm_components X) Hjoin HokX).
    by split. }
  destruct (runs_agree fs seekRewind this (ecm_components r1.1.2) Hjoin Hon Hsettled
              (b0 ++ [m0]) ecm r1.1.2 s s' ∅)
    as (M' & _ & HthisV & Hcomps).
  { intros k. by rewrite decide_False by set_solver. }
  { intros k c Hin. by apply elem_of_empty in Hin. }
  { fold r1. by rewrite Hflag. }
  fold r1 in Hcomps.
  rewrite Hthis1.
  destruct (playBatch_spec fs seekRewind (b0 ++ [m0]) this r1.1.2 s')
    as (_ & Hents2 & Hrem2 & _).
  destruct (playBatch_marks fs seekRewind (b0 ++ [m0]) this r1.1.2 s') as [Hm2 Ho2].
  destruct (playBatch_marks fs seekRewind (b0 ++ [m0]) this ecm s) as [Hm1 Ho1].
  fold r1 in Hm1, Ho1.
  set (r2 := foldl (playMessage fs seekRewind) (this, r1.1.2, s') (b0 ++ [m0])) in *.
  assert (r2.1.2 = r1.1.2) as Hecm.
  { apply ecm_eq.
    - rewrite Hents2, Hents1. apply set_eq. intros e. rewrite !elem_of_union. tauto.
    - apply map_eq. intros k. rewrite Hcomps. by case_decide.
    - rewrite Hrem2, Hrem1. apply set_eq. intros e. rewrite !elem_of_union. tauto.
    - done.
    - done. }
  destruct r2 as [[this2 ecm2] s2], r1 as [[this1 ecm1] s1]. simpl in *.
  by subst.
Qed.

(** *** The world after the loop is a function of the world before it *)

Lemma PrependLogPath_sameRewriting (fs : FS) this this' (u : string) :
  sameRewriting this this' →
  (PrependLogPath fs this u).1 = (PrependLogPath fs this' u).1 ∧
  sameRewriting (PrependLogPath fs this u).2 (PrependLogPath fs this' u).2.
Proof.
  intros [Hpath Hflag]. rewrite !PrependLogPath_unfold, <- Hpath, <- Hflag.
  unfold sameRewriting.
  destruct (negb (doReplaceResourceURIs this)); [done |].
  destruct (shouldPrepend (logPath this) u); [| done].
  destruct (negb (common_exists fs (pathPrepended (logPath this) u))); done.
Qed.

Lemma rewritePass_sameRewriting (fs : FS) (t : ComponentTypeId)
    (l : list (Entity * ComponentValue)) this this' ecm :
  sameRewriting this this' →
  sameRewriting (foldl (rewriteCallback fs t) (this, ecm) l).1
                (foldl (rewriteCallback fs t) (this', ecm) l).1 ∧
  (foldl (rewriteCallback fs t) (this, ecm) l).2 =
    (foldl (rewriteCallback fs t) (this', ecm) l).2.
Proof.
  revert this this' ecm. induction l as [|ev l IH]; intros this this' ecm Hsame;
    simpl; [done |].
  unfold rewriteCallback at 2 4 6 8. simpl.
  destruct (uriOf t ev.2) as [u|]; [| by apply IH].
  destruct (PrependLogPath_sameRewriting fs this this' u Hsame) as [-> Hsame'].
  by apply IH.
Qed.

Lemma ReplaceResourceURIs_sameRewriting (fs : FS) this this' ecm :
  sameRewriting this this' →
  sameRewriting (ReplaceResourceURIs fs this ecm).1 (ReplaceResourceURIs fs this' ecm).1 ∧
  (ReplaceResourceURIs fs this ecm).2 = (ReplaceResourceURIs fs this' ecm).2.
Proof.
  intros Hsame. rewrite !ReplaceResourceURIs_generic.
  destruct Hsame as [Hpath Hflag]. rewrite <- Hflag.
  destruct (negb (doReplaceResourceURIs this)); [done |]. simpl.
  destruct (rewritePass_sameRewriting fs TGeometry (ECM.Each ecm TGeometry)
              this this' ecm (conj Hpath Hflag)) as [HsameG HecmG].
  destruct (foldl (rewriteCallback fs TGeometry) (this, ecm) _) as [thisG ecmG].
  destruct (foldl (rewriteCallback fs TGeometry) (this', ecm) _) as [thisG' ecmG'].
  simpl in *. subst ecmG'.
  apply rewritePass_sameRewriting, HsameG.
Qed.

Lemma playBatch_sameRewriting (fs : FS) (seekRewind seekRewind' : bool)
    (b : list Message) this this' ecm (s s' : gset Entity) :
  sameRewriting this this' →
  sameRewriting (foldl (playMessage fs seekRewind) (this, ecm, s) b).1.1
                (foldl (playMessage fs seekRewind') (this', ecm, s') b).1.1 ∧
  (foldl (playMessage fs seekRewind) (this, ecm, s) b).1.2 =
    (foldl (playMessage fs seekRewind') (this', ecm, s') b).1.2.
Proof.
  revert this this' ecm s s'.
  induction b as [|m b IH]; intros this this' ecm s s' Hsame; simpl; [done |].
  rewrite !playMessage_unfold.
  set (X := foldl ECM.SetStateEntity ecm (messageRecords m)).
  destruct (ReplaceResourceURIs_sameRewriting fs this this' X Hsame) as [Hsame1 Hecm1].
  destruct (ReplaceResourceURIs fs this X) as [this1 ecm1].
  destruct (ReplaceResourceURIs fs this' X) as [this1' ecm1'].
  simpl in *. subst ecm1'. by apply IH.
Qed.

End BatchAgain.

Section EdgeTriggered.

Context `{C : Collaborators}.

Implicit Types (this : LogPlaybackPrivate) (ecm : EntityComponentManager).

Lemma detectChanges_spec this ecm (e : Entity) (v : bool) :
  ecm_components ecm !! (e, TParticleEmitterCmd) = Some (CParticleEmitterCmd v) →
  prevParticleEmitterCmds (detectChanges this ecm).1 !! e = Some v ∧
  changeMarks (detectChanges this ecm).2 e =
    (changeMarks ecm e + edgeOf (prevParticleEmitterCmds this !! e) v)%nat.
Proof.
  intros Hv. unfold detectChanges.
  destruct (particleEmitterPass_spec (ECM.Each ecm TParticleEmitterCmd) this ecm e
              (NoDup_Each ecm TParticleEmitterCmd)) as [Hin _].
  apply Hin. by apply elem_of_Each.
Qed.

Lemma observeSteps_from this (e : Entity) (worlds : list EntityComponentManager)
    (vs : list bool) (p : bool) :
  prevParticleEmitterCmds this !! e = Some p →
  Forall2 (λ ecm v, ecm_components ecm !! (e, TParticleEmitterCmd)
                    = Some (CParticleEmitterCmd v)) worlds vs →
  observeSteps this e worlds = edgesFrom p vs.
Proof.
  intros Hp Hall. revert this p Hp.
  induction Hall as [|ecm v worlds vs Hv _ IH]; intros this p Hp; simpl; [done |].
  destruct (detectChanges_spec this ecm e v Hv) as [Hprev Hmarks].
  destruct (detectChanges this ecm) as [this' ecm']. simpl in *.
  rewrite Hmarks, Hp, (IH this' v Hprev). simpl.
  f_equal. lia.
Qed.

(** The same for a whole step: the pass runs on the world the batch loop
    left, with the cache and the marks the step started with. *)
Lemma Update_change_marks (fs : FS) (_info : UpdateInfo) this ecm (lg : Log) (em : N)
    (e : Entity) (v : bool) :
  dt _info ≠ 0 →
  instStarted this = true →
  log this = Some lg →
  eventManager this = Some em →
  ecm_components (worldAfterBatch fs lg _info this ecm) !! (e, TParticleEmitterCmd)
    = Some (CParticleEmitterCmd v) →
  ∃ r, Update fs _info this ecm = Some r ∧
       prevParticleEmitterCmds (ur_this r) !! e = Some v ∧
       changeMarks (ur_ecm r) e =
         (changeMarks ecm e + edgeOf (prevParticleEmitterCmds this !! e) v)%nat.
Proof.
  intros Hdt Hstarted Hlog Hem Hv. unfold worldAfterBatch in Hv.
  destruct (Update_started fs _info this ecm lg em Hdt Hstarted Hlog Hem) as [Hup _].
  simpl in Hup.
  set (w := seekWindow _info ecm) in *.
  set (q := Log_QueryMessages lg w.1.2 w.2) in *.
  destruct (playBatch_spec fs w.1.1.1 q (set_batch this q) ecm w.1.1.2) as (Hsame & _).
  destruct (playBatch_marks fs w.1.1.1 q (set_batch this q) ecm w.1.1.2) as [Hmarks _].
  set (b := foldl (playMessage fs w.1.1.1) (set_batch this q, ecm, w.1.1.2) q) in *.
  destruct (detectChanges_spec b.1.1 b.1.2 e v Hv) as [Hprev Hcount].
  eexists. split; [exact Hup |]. simpl. split; [exact Hprev |].
  rewrite removeEntities_spec. unfold changeMarks in *. simpl.
  rewrite Hcount, Hmarks. unfold sameButFlag in Hsame. by rewrite Hsame.
Qed.

(** C5. The change detector is edge-triggered.  In a pass over the world,
    for an entity that holds the command component with value [v]: the
    value is recorded, and the component receives no change mark when there
    was no recorded value or the recorded value is [v], and exactly one when
    the recorded value differs.  Hence over a sequence of steps, starting
    without a recorded value, the marks per step are the edges of the value
    sequence; for [true, true, false, false, true] they fall at indices 2
    and 4 only.  A step of a started instance runs this pass on the world
    its batch loop left, with the cache and the marks it started with. *)
Theorem change_detector_is_edge_triggered (e : Entity) :
  (∀ this ecm (v : bool),
      ecm_components ecm !! (e, TParticleEmitterCmd) = Some (CParticleEmitterCmd v) →
      prevParticleEmitterCmds (detectChanges this ecm).1 !! e = Some v ∧
      changeMarks (detectChanges this ecm).2 e =
        (changeMarks ecm e +
           match prevParticleEmitterCmds this !! e with
           | None => 0
           | Some p => if Bool.eqb p v then 0 else 1
           end)%nat) ∧
  (∀ this (worlds : list EntityComponentManager) (vs : list bool),
      prevParticleEmitterCmds this !! e = None →
      Forall2 (λ ecm v, ecm_components ecm !! (e, TParticleEmitterCmd)
                        = Some (CParticleEmitterCmd v)) worlds vs →
      observeSteps this e worlds = edges vs) ∧
  edges [true; true; false; false; true] = [0; 0; 1; 0; 1]%nat ∧
  (∀ (fs : FS) (_info : UpdateInfo) this ecm (lg : Log) (em : N) (v : bool),
      dt _info ≠ 0 →
      instStarted this = true →
      log this = Some lg →
      eventManager this = Some em →
      ecm_components (worldAfterBatch fs lg _info this ecm) !! (e, TParticleEmitterCmd)
        = Some (CParticleEmitterCmd v) →
      ∃ r, Update fs _info this ecm = Some r ∧
           prevParticleEmitterCmds (ur_this r) !! e = Some v ∧
           changeMarks (ur_ecm r) e =
             (changeMarks ecm e +
                match prevParticleEmitterCmds this !! e with
                | None => 0
                | Some p => if Bool.eqb p v then 0 else 1
                end)%nat).
Proof.
  split; [| split; [| split; [reflexivity |]]].
  - intros this ecm v Hv. apply (detectChanges_spec this ecm e v Hv).
  - intros this worlds vs Hnone Hall.
    destruct Hall as [|ecm v worlds vs Hv Hall]; simpl; [done |].
    destruct (detectChanges_spec this ecm e v Hv) as [Hprev Hmarks].
    pose proof (observeSteps_from (detectChanges this ecm).1 e worlds vs v
                  Hprev Hall) as Hrest.
    destruct (detectChanges this ecm) as [this' ecm']. simpl in *.
    rewrite Hmarks, Hnone, Hrest. simpl. f_equal. lia.
  - intros fs _info this ecm lg em v. apply Update_change_marks.
Qed.

End EdgeTriggered.

Section Idempotence.

Context `{C : Collaborators}.

(** C9, as the code has it.  Applying an ordered sequence of diff messages
    by [Parse] to the world that the same sequence produced from a seed world
    gives that world again.  The batch loop of a step also rewrites resource
    URIs after each message, and for it replay is deterministic and idempotent
    up to the legacy fallback of the rewriter: the world it ends in is decided
    by the seed world, the batch, the log path and the rewriting flag,
    whatever the rest of the instance, the rewind flag and the removal set
    are; and running the batch again from the instance and world that a first
    run produced gives them again, as long as the first run did not switch
    rewriting off (and joining keeps the log path in front of the joined
    path). *)
Theorem replay_is_idempotent (seed : EntityComponentManager)
    (diffs : list SerializedState) (fs : FS) (seekRewind : bool)
    (b : list Message) (this : LogPlaybackPrivate) (s s' : gset Entity) :
  replay (replay seed diffs) diffs = replay seed diffs ∧
  (∀ (this' : LogPlaybackPrivate) (seekRewind' : bool) (s'' : gset Entity),
      logPath this' = logPath this →
      doReplaceResourceURIs this' = doReplaceResourceURIs this →
      (foldl (playMessage fs seekRewind') (this', seed, s'') b).1.2 =
        (foldl (playMessage fs seekRewind) (this, seed, s) b).1.2) ∧
  ((∀ q, ∃ r, common_joinPaths (logPath this) q = logPath this +:+ r) →
   let r1 := foldl (playMessage fs seekRewind) (this, seed, s) b in
   doReplaceResourceURIs r1.1.1 = doReplaceResourceURIs this →
   (foldl (playMessage fs seekRewind) (r1.1.1, r1.1.2, s') b).1 = r1.1).
Proof.
  split; [| split].
  - destruct (replay_delta diffs) as [d Hd].
    rewrite !Hd. apply applyDelta_idemp.
  - intros this' seekRewind' s'' Hpath Hflag.
    by apply playBatch_sameRewriting.
  - intros Hjoin r1 Hflag. by apply playBatch_twice.
Qed.

(** C6. The rewriter is idempotent, provided joining keeps the log path in
    front of the joined path: a second call of [PrependLogPath] on the URI
    that a first call returned returns that URI again and leaves the instance
    as the first call left it; and a second run of [ReplaceResourceURIs] over
    the world that a first run produced changes neither the world nor the
    instance. *)
Theorem rewriter_is_idempotent (fs : FS) (this : LogPlaybackPrivate) (_uri : string)
    (ecm : EntityComponentManager) :
  (∀ q, ∃ r, common_joinPaths (logPath this) q = logPath this +:+ r) →
  PrependLogPath fs (PrependLogPath fs this _uri).2 (PrependLogPath fs this _uri).1
    = PrependLogPath fs this _uri ∧
  ReplaceResourceURIs fs (ReplaceResourceURIs fs this ecm).1
    (ReplaceResourceURIs fs this ecm).2 = ReplaceResourceURIs fs this ecm.
Proof.
  intros Hjoin. split.
  - destruct (PrependLogPath fs this _uri) as [u1 this1] eqn:H1. simpl.
    by eapply PrependLogPath_twice.
  - by apply ReplaceResourceURIs_twice.
Qed.

End Idempotence.

(** C9, as the specification words it, fails for the batch loop.  The first
    run of a batch rewrites the mesh URI of entity 2 and then meets a mesh
    that the log directory does not hold, which switches rewriting off; the
    second run of the same batch, from the instance and world of the first,
    leaves the URI of entity 2 as the log has it, so it ends in another
    world. *)
Lemma rerun_ends_in_another_world : ¬ rerunReproducesWorld.
Proof.
  intros Hspec.
  pose proof (Hspec Simple.collaborators Simple.demoFS false Simple.fallbackBatch
                Simple.demoThis Simple.demoECM ∅ ∅) as Hagain.
  apply (f_equal (λ ecm, ecm_components ecm !! (2%N, TGeometry))) in Hagain.
  vm_compute in Hagain. discriminate Hagain.
Qed.

(** ** The statements at work on the demo log *)

Lemma joinPaths_keeps_front (a q : string) : ∃ r, Simple.joinPaths a q = a +:+ r.
Proof. unfold Simple.joinPaths. destruct (Ascii.eqb _ _); eauto. Qed.

Lemma backward_jump_replays_from_zero_witness :
  simTime Simple.backInfo < tPrev Simple.backInfo ∧
  seekWindow Simple.backInfo Simple.demoECM =
    (true, ecm_entities Simple.demoECM, 0, 3 * Simple.sec) ∧
  ∃ r, Update (C := Simple.collaborators) Simple.demoFS Simple.backInfo
         Simple.demoThis Simple.demoECM = Some r ∧
       batch (ur_this r) = Simple.queryRange Simple.demoLog 0 (3 * Simple.sec).
Proof.
  split; [done |].
  destruct (backward_jump_replays_from_zero (C := Simple.collaborators)
              Simple.demoFS Simple.backInfo Simple.demoThis Simple.demoECM
              Simple.demoLog 7%N) as (Hw & _ & Hr); [done | done | done | done |].
  split; [exact Hw | exact Hr].
Defined.


Lemma forward_step_removes_nothing_witness :
  tPrev Simple.fwdInfo < simTime Simple.fwdInfo ∧
  seekWindow Simple.fwdInfo Simple.demoECM =
    (false, ∅, Simple.sec + 1, 2 * Simple.sec + 1) ∧
  ∃ r, Update (C := Simple.collaborators) Simple.demoFS Simple.fwdInfo
         Simple.demoThis Simple.demoECM = Some r ∧
       1%N ∈ ecm_entities (ur_ecm r) ∧
       (1%N ∈ ecm_toRemove (ur_ecm r) ↔ 1%N ∈ ecm_toRemove Simple.demoECM).
Proof.
  split; [done |].
  destruct (forward_step_removes_nothing (C := Simple.collaborators)
              Simple.demoFS Simple.fwdInfo Simple.demoThis Simple.demoECM
              Simple.demoLog 7%N)
    as (Hw & _ & _ & r & Hup & _ & _ & Hkeep); [done | done | done | done |].
  split; [exact Hw |]. exists r. split; [exact Hup |].
  apply Hkeep; vm_compute; [set_solver |].
  intros Hin. repeat (apply elem_of_cons in Hin as [Hin | Hin]; [discriminate Hin |]).
  by apply elem_of_nil in Hin.
Defined.

Lemma pause_on_every_step_at_end_witness :
  dt Simple.endInfo ≠ 0 ∧
  ∃ r, Update (C := Simple.collaborators) Simple.demoFS Simple.endInfo
         Simple.demoThis Simple.demoECM = Some r ∧
       ur_events r = [Pause true].
Proof.
  split; [done |].
  destruct (pause_on_every_step_at_end (C := Simple.collaborators)
              Simple.demoFS Simple.endInfo Simple.demoThis Simple.demoECM
              Simple.demoLog 7%N)
    as (r & Hup & Hev & _); [done | done | done | done |].
  exists r. split; [exact Hup | exact Hev].
Defined.

Lemma legacy_fallback_is_permanent_witness :
  common_exists (Collaborators := Simple.collaborators) Simple.demoFS
    "/log/meshes/missing.dae" = false ∧
  ∃ this',
    PrependLogPath (C := Simple.collaborators) Simple.demoFS Simple.demoThis
      "/meshes/missing.dae" = ("/meshes/missing.dae", this') ∧
    PrependLogPath (C := Simple.collaborators) Simple.demoFS this' "/meshes/a.dae"
      = ("/meshes/a.dae", this').
Proof.
  split; [reflexivity |].
  destruct (legacy_fallback_is_permanent (C := Simple.collaborators)
              Simple.demoFS Simple.demoThis "/meshes/missing.dae")
    as (this' & Hcall & _ & Hlater & _); [reflexivity | reflexivity | reflexivity |].
  exists this'. split; [exact Hcall | apply Hlater].
Defined.

Lemma rewritten_uri_has_file_scheme_witness :
  common_exists (Collaborators := Simple.collaborators) Simple.demoFS
    "/log/meshes/a.dae" = true ∧
  PrependLogPath (C := Simple.collaborators) Simple.demoFS Simple.demoThis
    "/meshes/a.dae" = ("file:///log/meshes/a.dae", Simple.demoThis).
Proof.
  split; [reflexivity |].
  apply (rewritten_uri_has_file_scheme (C := Simple.collaborators)
           Simple.demoFS Simple.demoThis "/meshes/a.dae"); reflexivity.
Defined.

Lemma rewriter_is_idempotent_witness :
  PrependLogPath (C := Simple.collaborators) Simple.demoFS Simple.demoThis
    "file:///log/meshes/a.dae" =
  PrependLogPath (C := Simple.collaborators) Simple.demoFS Simple.demoThis
    "/meshes/a.dae" ∧
  let r := ReplaceResourceURIs (C := Simple.collaborators) Simple.demoFS Simple.demoThis
             (ECM.SetState Simple.emptyECM [Simple.meshRecord 2%N "/meshes/a.dae"]) in
  ReplaceResourceURIs (C := Simple.collaborators) Simple.demoFS r.1 r.2 = r.
Proof.
  apply (rewriter_is_idempotent (C := Simple.collaborators)
           Simple.demoFS Simple.demoThis "/meshes/a.dae"
           (ECM.SetState Simple.emptyECM [Simple.meshRecord 2%N "/meshes/a.dae"])).
  intros q. apply joinPaths_keeps_front.
Defined.

Lemma replay_is_idempotent_witness :
  let b := (Simple.demoLog).*2 in
  let r1 := foldl (playMessage (C := Simple.collaborators) Simple.demoFS false)
              (Simple.demoThis, Simple.demoECM, ∅) b in
  doReplaceResourceURIs r1.1.1 = true ∧
  (foldl (playMessage (C := Simple.collaborators) Simple.demoFS false)
     (r1.1.1, r1.1.2, ∅) b).1 = r1.1.
Proof.
  intros b r1. split; [reflexivity |].
  destruct (replay_is_idempotent (C := Simple.collaborators) Simple.demoECM []
              Simple.demoFS false b Simple.demoThis ∅ ∅) as (_ & _ & Hloop).
  apply Hloop; [| reflexivity].
  intros q. apply joinPaths_keeps_front.
Defined.

Lemma change_detector_is_edge_triggered_witness :
  observeSteps (C := Simple.collaborators) LogPlaybackPrivate_init 3%N
    (Simple.emitterWorld <$> [true; true; false; false; true])
  = [0; 0; 1; 0; 1]%nat.
Proof.
  destruct (change_detector_is_edge_triggered (C := Simple.collaborators) 3%N)
    as (_ & Hseq & <- & _).
  apply Hseq; [reflexivity |].
  repeat constructor.
Defined.


(** Five steps on a log in which the command of entity 3 reads true,
    true, false, false, true; the steps mark it changed at indices 2 and 4. *)
Example five_steps_mark_indices_2_and_4 :
  stepMarks (C := Simple.collaborators) Simple.emitterFS
    (cr_this Simple.emitterConfigured) (cr_ecm Simple.emitterConfigured) 3%N
    Simple.fiveSteps = [0; 0; 1; 0; 1]%nat.
Proof. vm_compute. reflexivity. Qed.

(** The condition on the rewriting flag cannot be dropped from the statement
    about running a batch again: when the first run meets a missing resource
    after it has rewritten another URI, rewriting is off for the second run,
    which then leaves the URI of entity 2 as the log has it. *)
Example rerun_after_fallback_differs :
  let r1 := foldl (playMessage (C := Simple.collaborators) Simple.demoFS false)
              (Simple.demoThis, Simple.demoECM, ∅) Simple.fallbackBatch in
  let r2 := foldl (playMessage (C := Simple.collaborators) Simple.demoFS false)
              (r1.1.1, r1.1.2, ∅) Simple.fallbackBatch in
  doReplaceResourceURIs r1.1.1 = false ∧
  ecm_components r1.1.2 !! (2%N, TGeometry) =
    Some (CGeometry (MeshGeometry (mkMesh "file:///log/meshes/a.dae" ""))) ∧
  ecm_components r2.1.2 !! (2%N, TGeometry) =
    Some (CGeometry (MeshGeometry (mkMesh "/meshes/a.dae" ""))).
Proof. vm_compute. done. Qed.

(** * Further properties of the playback system *)

(** ** What rewriting leaves alone *)

Section RewritingFrame.

Context `{C : Collaborators}.

Implicit Types (this : LogPlaybackPrivate) (ecm : EntityComponentManager).

Lemma onlyUriChanged_refl (t : ComponentTypeId) (o : option ComponentValue) :
  onlyUriChanged t o o.
Proof. destruct o; simpl; auto. Qed.

Lemma rewriteCallback_lookups (fs : FS) (t : ComponentTypeId) this ecm
    (e : Entity) (c : ComponentValue) (k : Entity * ComponentTypeId) :
  ecm_components ecm !! (e, t) = Some c →
  ecm_components (rewriteCallback fs t (this, ecm) (e, c)).2 !! k =
    if decide (k = (e, t)) then Some (rewritten fs this t c)
    else ecm_components ecm !! k.
Proof.
  intros Hl. unfold rewriteCallback, rewritten. simpl.
  destruct (uriOf t c) as [u|] eqn:Hu; simpl.
  - rewrite (typeId_withUri t c u _ Hu).
    case_decide as Hk; [subst k; by rewrite lookup_insert_eq |].
    by rewrite lookup_insert_ne.
  - case_decide as Hk; [by subst k | done].
Qed.

Lemma onlyUriChanged_rewritten (fs : FS) this (t : ComponentTypeId) (c : ComponentValue) :
  onlyUriChanged t (Some c) (Some (rewritten fs this t c)).
Proof.
  unfold rewritten. simpl. destruct (uriOf t c) as [u|] eqn:Hu; [| by left].
  right. eauto.
Qed.

Lemma rewritePass_frame (fs : FS) (t : ComponentTypeId)
    (l : list (Entity * ComponentValue)) this ecm :
  NoDup l.*1 →
  (∀ e c, (e, c) ∈ l → ecm_components ecm !! (e, t) = Some c) →
  ∀ k, if decide (k.2 = t ∧ k.1 ∈ l.*1)
       then onlyUriChanged t (ecm_components ecm !! k)
              (ecm_components (foldl (rewriteCallback fs t) (this, ecm) l).2 !! k)
       else ecm_components (foldl (rewriteCallback fs t) (this, ecm) l).2 !! k
            = ecm_components ecm !! k.
Proof.
  revert this ecm. induction l as [|[e c] l IH]; intros this ecm Hnd Hagree k; simpl.
  { rewrite decide_False; [done |]. intros [_ Hin]. by apply elem_of_nil in Hin. }
  simpl in Hnd. apply NoDup_cons in Hnd as [Hnotin Hnd].
  assert (ecm_components ecm !! (e, t) = Some c) as Hec by (apply Hagree; by left).
  pose proof (rewriteCallback_lookups fs t this ecm e c) as Hstep.
  destruct (rewriteCallback fs t (this, ecm) (e, c)) as [this1 ecm1]. simpl in Hstep.
  assert (∀ e2 c2, (e2, c2) ∈ l → ecm_components ecm1 !! (e2, t) = Some c2) as Hagree1.
  { intros e2 c2 Hin. rewrite (Hstep (e2, t) Hec), decide_False.
    - apply Hagree. by right.
    - intros [= ->]. apply Hnotin, list_elem_of_fmap. by exists (e, c2). }
  specialize (IH this1 ecm1 Hnd Hagree1 k). specialize (Hstep k Hec).
  destruct (decide (k = (e, t))) as [-> | Hne].
  - simpl in *. rewrite decide_False in IH by (by intros [_ ?]).
    rewrite decide_True by (split; [done | by left]).
    rewrite IH, Hstep, Hec. apply onlyUriChanged_rewritten.
  - rewrite Hstep in IH.
    destruct (decide (k.2 = t ∧ k.1 ∈ l.*1)) as [[Ht Hin] | Hno].
    + rewrite decide_True; [done |]. split; [done | by right].
    + rewrite decide_False; [done |].
      intros [Ht [Heq | Hin]%elem_of_cons]; [| by apply Hno].
      apply Hne. destruct k as [k1 k2]. simpl in *. by subst.
Qed.

Lemma rewritePass_world_frame (fs : FS) (t : ComponentTypeId) this ecm
    (k : Entity * ComponentTypeId) :
  let ecm' := (foldl (rewriteCallback fs t) (this, ecm) (ECM.Each ecm t)).2 in
  (k.2 = t → onlyUriChanged t (ecm_components ecm !! k) (ecm_components ecm' !! k)) ∧
  (k.2 ≠ t → ecm_components ecm' !! k = ecm_components ecm !! k).
Proof.
  pose proof (rewritePass_frame fs t (ECM.Each ecm t) this ecm
                (NoDup_Each ecm t) (λ e c, proj1 (elem_of_Each ecm t e c)) k) as Hk.
  simpl. split.
  - intros Ht. case_decide as Hin; [done |]. rewrite Hk. apply onlyUriChanged_refl.
  - intros Ht. rewrite decide_False in Hk; [done | by intros [? _]].
Qed.

Lemma ReplaceResourceURIs_lookup_frame (fs : FS) this ecm (k : Entity * ComponentTypeId) :
  onlyUriChanged k.2 (ecm_components ecm !! k)
    (ecm_components (ReplaceResourceURIs fs this ecm).2 !! k).
Proof.
  rewrite ReplaceResourceURIs_generic.
  destruct (negb (doReplaceResourceURIs this)); [apply onlyUriChanged_refl |]. simpl.
  destruct (rewritePass_world_frame fs TGeometry this ecm k) as [HG HG'].
  destruct (foldl (rewriteCallback fs TGeometry) (this, ecm) _) as [thisG ecmG].
  simpl in *.
  destruct (rewritePass_world_frame fs TMaterial thisG ecmG k) as [HM HM'].
  destruct (decide (k.2 = TMaterial)) as [Ht | Ht].
  - rewrite <- HG' by (rewrite Ht; done). rewrite Ht in *. by apply HM.
  - rewrite HM' by done.
    destruct (decide (k.2 = TGeometry)) as [Ht' | Ht'].
    + rewrite Ht' in *. by apply HG.
    + rewrite HG' by done. apply onlyUriChanged_refl.
Qed.

Lemma onlyUriChanged_other (t : ComponentTypeId) (o o' : option ComponentValue) :
  t ≠ TGeometry → t ≠ TMaterial → onlyUriChanged t o o' → o' = o.
Proof.
  intros H1 H2. destruct o as [c|], o' as [c'|]; simpl; try done.
  intros [-> | (u & u' & Hu & _)]; [done |].
  unfold uriOf in Hu. by destruct t.
Qed.

(** X3. [ReplaceResourceURIs] changes resource URIs and nothing else: each
    component slot is empty before and after, or holds the same component, or
    holds a mesh geometry or a material that differs in its URI only.  So the
    set of slots stays the same, components of every other type keep their
    value, the entities, pending removals and change marks of the world are
    untouched, the instance changes in the rewriting flag at most, and a flag
    that is off stays off. *)
Theorem ReplaceResourceURIs_changes_only_uris (fs : FS) this ecm :
  let r := ReplaceResourceURIs fs this ecm in
  (∀ k, onlyUriChanged k.2 (ecm_components ecm !! k) (ecm_components r.2 !! k)) ∧
  dom (ecm_components r.2) = dom (ecm_components ecm) ∧
  (∀ k, k.2 ≠ TGeometry → k.2 ≠ TMaterial →
        ecm_components r.2 !! k = ecm_components ecm !! k) ∧
  r.2 = ECM.set_components ecm (ecm_components r.2) ∧
  r.1 = set_doReplaceResourceURIs this (doReplaceResourceURIs r.1) ∧
  (doReplaceResourceURIs this = false → doReplaceResourceURIs r.1 = false).
Proof.
  simpl.
  destruct (ReplaceResourceURIs_frame fs this ecm) as [Hthis Hecm].
  split; [apply ReplaceResourceURIs_lookup_frame |].
  split; [| split; [| split; [exact Hecm | split; [exact Hthis |]]]].
  - apply set_eq. intros k. rewrite !elem_of_dom.
    pose proof (ReplaceResourceURIs_lookup_frame fs this ecm k) as Hk.
    destruct (ecm_components ecm !! k), (ecm_components _ !! k);
      simpl in Hk; try done; split; eauto; intros [? ?]; done.
  - intros k H1 H2.
    exact (onlyUriChanged_other k.2 _ _ H1 H2 (ReplaceResourceURIs_lookup_frame fs this ecm k)).
  - intros Hoff. by rewrite ReplaceResourceURIs_disabled.
Qed.

End RewritingFrame.

(** ** Start *)

Section StartFacts.

Context `{C : Collaborators}.

Implicit Types (this : LogPlaybackPrivate) (ecm : EntityComponentManager).

Lemma Start_unfold_opened (fs : FS) this ecm :
  StdString.empty (logPath this) = false →
  common_exists fs (dbPath this) = true →
  Start fs false this ecm =
    let lg := openedLog fs this in
    let this1 := set_batch (set_log this (Some lg)) (Log_QueryAllMessages lg) in
    let ecm1 := seedInitialState ecm (Log_QueryAllMessages lg) in
    match ECM.EntityByComponents ecm1 CWorld with
    | None => mkStartResult false false this1 ecm1
    | Some worldEntity =>
        let st := ReplaceResourceURIs fs this1
                    (ECM.CreateComponent ecm1 worldEntity
                       (CLogPlaybackStatistics
                          (mkLogStats (Log_StartTime lg) (Log_EndTime lg)))) in
        mkStartResult true true (set_instStarted st.1 true) st.2
    end.
Proof.
  intros Hpath Hdb. unfold Start, openedLog, dbPath in *. rewrite Hpath, Hdb. simpl.
  destruct (Log_Open fs Log_new _) as [ok lg]. simpl.
  destruct (ECM.EntityByComponents _ CWorld) as [w|]; [| done].
  destruct (ECM.Component _ w TLogPlaybackStatistics);
    by destruct (ReplaceResourceURIs fs _ _).
Qed.

(** X1. [Start] fails without any effect when no log path is set or when
    the log directory holds no [state.tlog]: it returns false and the instance,
    the world and the process-wide flag are as before; no log is opened. *)
Theorem Start_fails_without_effect (fs : FS) this ecm :
  StdString.empty (logPath this) = true ∨ common_exists fs (dbPath this) = false →
  Start fs false this ecm = mkStartResult false false this ecm.
Proof.
  unfold Start, dbPath. intros [Hempty | Hmissing].
  - by rewrite Hempty.
  - destruct (StdString.empty (logPath this)); [done |]. by rewrite Hmissing.
Qed.

(** X2. When the world holds no world entity after the first state message
    of the log has been applied, [Start] returns false and starts nothing,
    yet it has opened the log, stored all its messages as the batch and
    applied the first state message to the world. *)
Theorem Start_without_world_entity (fs : FS) this ecm :
  StdString.empty (logPath this) = false →
  common_exists fs (dbPath this) = true →
  ECM.EntityByComponents
    (seedInitialState ecm (Log_QueryAllMessages (openedLog fs this))) CWorld = None →
  let r := Start fs false this ecm in
  sr_ret r = false ∧ sr_started r = false ∧
  instStarted (sr_this r) = instStarted this ∧
  log (sr_this r) = Some (openedLog fs this) ∧
  batch (sr_this r) = Log_QueryAllMessages (openedLog fs this) ∧
  sr_ecm r = seedInitialState ecm (Log_QueryAllMessages (openedLog fs this)).
Proof.
  intros Hpath Hdb Hnone. rewrite (Start_unfold_opened fs this ecm Hpath Hdb).
  simpl. by rewrite Hnone.
Qed.


(** X5. The value that [Start] returns is the process-wide flag after the
    call, on every path; and the instance is marked started after the call
    exactly when it was marked before or the call started the playback. *)
Theorem Start_returns_the_flag (fs : FS) (started : bool) this ecm :
  let r := Start fs started this ecm in
  sr_ret r = sr_started r ∧
  instStarted (sr_this r) = instStarted this || (negb started && sr_ret r).
Proof.
  destruct started; [simpl; by rewrite orb_false_r |].
  destruct (StdString.empty (logPath this)) eqn:Hpath.
  { rewrite Start_fails_without_effect by (by left). simpl. by rewrite orb_false_r. }
  destruct (common_exists fs (dbPath this)) eqn:Hdb.
  2:{ rewrite Start_fails_without_effect by (by right). simpl. by rewrite orb_false_r. }
  cbv zeta. rewrite (Start_unfold_opened fs this ecm Hpath Hdb). simpl.
  destruct (ECM.EntityByComponents _ CWorld); simpl.
  - by rewrite orb_true_r.
  - by rewrite orb_false_r.
Qed.

Lemma seedInitialState_skips (ecm : EntityComponentManager) (pre : list Message) :
  Forall (λ m, isStateMessage m = false) pre →
  ∀ rest, seedInitialState ecm (pre ++ rest) = seedInitialState ecm rest.
Proof.
  induction 1 as [|m pre Hm _ IH]; intros rest; [done |].
  simpl. unfold isStateMessage in Hm. apply orb_false_iff in Hm as [-> ->].
  apply IH.
Qed.

(** X6. [Start] takes the initial state from the first state message of the
    log and from no other: the messages of other types before it are skipped,
    its records are applied, and all messages after it are left for the
    steps.  A log without a state message leaves the world as it is. *)
Theorem seed_is_the_first_state_message (ecm : EntityComponentManager)
    (pre rest : list Message) (m : Message) :
  Forall (λ x, isStateMessage x = false) pre →
  (isStateMessage m = true →
   seedInitialState ecm (pre ++ m :: rest) =
     foldl ECM.SetStateEntity ecm (messageRecords m)) ∧
  seedInitialState ecm pre = ecm.
Proof.
  intros Hpre. split.
  - intros Hm. rewrite (seedInitialState_skips ecm pre Hpre). simpl.
    unfold isStateMessage in Hm. unfold messageRecords, Parse_State, Parse_StateMap.
    destruct (String.eqb (Type_ m) "gz.msgs.SerializedState"); [done |].
    destruct (String.eqb (Type_ m) "gz.msgs.SerializedStateMap"); [done |].
    done.
  - rewrite <- (app_nil_r pre). by rewrite (seedInitialState_skips ecm pre Hpre).
Qed.

End StartFacts.

(** ** PrependLogPath on the kinds of URI *)

Section PrependFacts.

Context `{C : Collaborators}.

Implicit Types (this : LogPlaybackPrivate).

Lemma prefix_iff_app (t s : string) : String.prefix t s = true ↔ ∃ r, s = t +:+ r.
Proof.
  rewrite String.prefix_correct. split.
  - intros Heq. destruct (substring_0_is_prefix (String.length t) s) as [r Hr].
    exists r. by rewrite Heq in Hr.
  - intros [r ->]. apply substring_0_app.
Qed.

Lemma compare_eq0_is_prefix (s t : string) :
  StdString.compare_eq0 s 0 (StdString.size t) t = String.prefix t s.
Proof.
  apply eq_true_iff_eq. by rewrite compare_eq0_prefix, prefix_iff_app.
Qed.

Lemma front_app (a b : string) :
  StdString.empty a = false → StdString.front (a +:+ b) = StdString.front a.
Proof. by destruct a. Qed.

(** X7. A URI that neither has the [file://] scheme nor starts with a
    separator (a relative path, a URI of another scheme, the empty string) is
    returned as it is, the filesystem is not asked and the instance is left as
    it is, so such a URI never switches rewriting off. *)
Theorem other_uris_are_left_alone (fs : FS) this (_uri : string) :
  hasFileScheme _uri = false →
  StdString.front _uri ≠ "/"%char →
  PrependLogPath fs this _uri = (_uri, this).
Proof.
  intros Hscheme Hfront. rewrite PrependLogPath_unfold.
  destruct (negb (doReplaceResourceURIs this)); [done |].
  unfold shouldPrepend. rewrite compare_eq0_is_prefix.
  unfold hasFileScheme in Hscheme. rewrite Hscheme. simpl.
  by rewrite (proj2 (Ascii.eqb_neq _ _) Hfront).
Qed.

(** X8. A [file://] URI whose path starts with the log path is returned as
    it is, whatever the filesystem holds: the path is not checked, so a file
    missing under the log path does not switch rewriting off. *)
Theorem file_uri_under_log_path_is_kept (fs : FS) this (rest : string) :
  PrependLogPath fs this (filePrefix +:+ logPath this +:+ rest)
    = (filePrefix +:+ logPath this +:+ rest, this).
Proof.
  rewrite PrependLogPath_unfold, shouldPrepend_rewritten.
  by destruct (negb (doReplaceResourceURIs this)).
Qed.

(** X9. The test for an already prepended log path covers [file://] URIs
    only.  A bare absolute path is joined to the log path even when it starts
    with the log path already: it comes back as [file://] and the log path
    twice when that joined path exists, and it switches rewriting off when it
    does not. *)
Theorem bare_path_under_log_path_is_joined_again (fs : FS) this (rest : string) :
  doReplaceResourceURIs this = true →
  StdString.front (logPath this) = "/"%char →
  PrependLogPath fs this (logPath this +:+ rest) =
    if common_exists fs (common_joinPaths (logPath this) (logPath this +:+ rest))
    then (filePrefix +:+ common_joinPaths (logPath this) (logPath this +:+ rest), this)
    else (logPath this +:+ rest, set_doReplaceResourceURIs this false).
Proof.
  intros Hon Hfront.
  assert (StdString.front (logPath this +:+ rest) = "/"%char) as Hf.
  { rewrite front_app; [done |]. by destruct (logPath this). }
  rewrite PrependLogPath_unfold, Hon. simpl.
  unfold shouldPrepend, pathPrepended, pathNoPrefix. rewrite Hf. simpl.
  rewrite orb_true_r.
  by destruct (common_exists fs _).
Qed.

End PrependFacts.

(** ** Update: what a step writes and what it never does *)

Section UpdateFacts.

Context `{C : Collaborators}.

Implicit Types (this : LogPlaybackPrivate) (ecm : EntityComponentManager).

(** The two ways in which a step returns. *)
Lemma Update_cases (fs : FS) (_info : UpdateInfo) this ecm (r : UpdateResult) :
  Update fs _info this ecm = Some r →
  r = mkUpdateResult this ecm [] ∨
  ∃ lg, dt _info ≠ 0 ∧ instStarted this = true ∧ log this = Some lg ∧
    let w := seekWindow _info ecm in
    let q := Log_QueryMessages lg w.1.2 w.2 in
    let b := foldl (playMessage fs w.1.1.1) (set_batch this q, ecm, w.1.1.2) q in
    let d := detectChanges b.1.1 b.1.2 in
    ur_this r = d.1 ∧ ur_ecm r = removeEntities d.2 b.2.
Proof.
  unfold Update. destruct (dt _info =? 0) eqn:Hdt; [intros [= <-]; by left |].
  destruct (instStarted this) eqn:Hst; simpl; [| intros [= <-]; by left].
  destruct (log this) as [lg|] eqn:Hlog; [| done].
  intros Hup. right. exists lg.
  split; [by apply Z.eqb_neq | split; [done | split; [done |]]].
  destruct (seekWindow _info ecm) as [[[seekRewind s] startTime] endTime].
  unfold playWindow in Hup. simpl in *. unfold detectChanges.
  destruct (foldl (playMessage fs seekRewind) _ _) as [[this1 ecm1] s1]. simpl.
  destruct (foldl particleEmitterCallback _ _) as [this2 ecm2]. simpl.
  repeat case_match; by simplify_eq.
Qed.



(** X10. A step that returns writes three members of the instance at most:
    the stored batch, the rewriting flag and the cache of previous commands.
    The log path, the log handle, the extraction directory, the started flag,
    [printedEnd] and the event manager are as before, and a rewriting flag
    that is off stays off. *)
Theorem Update_writes_three_members (fs : FS) (_info : UpdateInfo) this ecm
    (r : UpdateResult) :
  Update fs _info this ecm = Some r →
  ur_this r =
    set_prevParticleEmitterCmds
      (set_doReplaceResourceURIs (set_batch this (batch (ur_this r)))
         (doReplaceResourceURIs (ur_this r)))
      (prevParticleEmitterCmds (ur_this r)) ∧
  (doReplaceResourceURIs this = false → doReplaceResourceURIs (ur_this r) = false).
Proof.
  intros Hup. split; [| intros Hoff; by eapply Update_keeps_disabled].
  destruct (Update_cases fs _info this ecm r Hup)
    as [-> | (lg & _ & _ & _ & Hthis & _)]; [by destruct this |].
  simpl in Hthis.
  set (w := seekWindow _info ecm) in *.
  set (q := Log_QueryMessages lg w.1.2 w.2) in *.
  destruct (playBatch_spec fs w.1.1.1 q (set_batch this q) ecm w.1.1.2) as (Hsame & _).
  set (b := foldl (playMessage fs w.1.1.1) (set_batch this q, ecm, w.1.1.2) q) in *.
  unfold detectChanges in Hthis.
  pose proof (particleEmitterPass_members (ECM.Each b.1.2 TParticleEmitterCmd)
                b.1.1 b.1.2) as Hp.
  simpl in Hp. rewrite <- Hthis in Hp. unfold sameButFlag in Hsame.
  rewrite Hsame in Hp.
  assert (batch (ur_this r) = q) as -> by (by rewrite Hp).
  assert (doReplaceResourceURIs (ur_this r) = doReplaceResourceURIs b.1.1) as ->
    by (by rewrite Hp).
  exact Hp.
Qed.


End UpdateFacts.

(** ** A configured instance never dereferences a null pointer *)

Section Safety.

Context `{C : Collaborators}.

Implicit Types (this : LogPlaybackPrivate) (ecm : EntityComponentManager).

Lemma Update_wellFormed (fs : FS) (_info : UpdateInfo) this ecm :
  wellFormed this →
  ∃ r, Update fs _info this ecm = Some r ∧
       wellFormed (ur_this r) ∧ instStarted (ur_this r) = instStarted this.
Proof.
  intros Hwf.
  destruct (decide (dt _info = 0)) as [Hdt | Hdt].
  { exists (mkUpdateResult this ecm []). unfold Update.
    by rewrite (proj2 (Z.eqb_eq _ _) Hdt). }
  destruct (instStarted this) eqn:Hst.
  2:{ exists (mkUpdateResult this ecm []). unfold Update.
      rewrite (proj2 (Z.eqb_neq _ _) Hdt), Hst. simpl.
      split; [done | split; [| done]]. intros Hyes. simpl in Hyes. congruence. }
  destruct (Hwf Hst) as [[lg Hlog] [em Hem]].
  destruct (Update_signals fs _info this ecm lg em Hdt Hst Hlog Hem)
    as (r & Hup & _ & _ & Hst' & Hlog' & Hem').
  exists r. split; [done | split; [| done]].
  intros _. rewrite Hlog', Hem'. eauto.
Qed.

(** X12. Steps on an instance that has a log and an event manager whenever
    it is started never dereference a null pointer: any sequence of steps
    returns, and leaves such an instance, started or not as it was. *)
Theorem steps_never_fail (fs : FS) (infos : list UpdateInfo) this ecm :
  wellFormed this →
  ∃ this' ecm' events,
    steps fs this ecm infos = Some (this', ecm', events) ∧
    wellFormed this' ∧ instStarted this' = instStarted this.
Proof.
  revert this ecm. induction infos as [|_info infos IH]; intros this ecm Hwf; simpl.
  { by exists this, ecm, []. }
  destruct (Update_wellFormed fs _info this ecm Hwf) as (r & -> & Hwf' & Hst).
  destruct (IH (ur_this r) (ur_ecm r) Hwf') as (this' & ecm' & events & -> & Hwf'' & Hst').
  exists this', ecm', (ur_events r ++ events).
  split; [done | split; [done | congruence]].
Qed.

Lemma ExtractStateAndResources_keeps (fs : FS) this :
  let this' := (ExtractStateAndResources fs this).2 in
  log this' = log this ∧ instStarted this' = instStarted this ∧
  eventManager this' = eventManager this.
Proof.
  unfold ExtractStateAndResources.
  destruct (StdString.find_last_of _ _); simpl;
    destruct (Zip_Extract _ _ _) as [[] fs']; done.
Qed.

Lemma Start_keeps_wellFormed (fs : FS) (started : bool) this ecm :
  (instStarted this = true → is_Some (log this)) →
  let r := Start fs started this ecm in
  (instStarted (sr_this r) = true → is_Some (log (sr_this r))) ∧
  eventManager (sr_this r) = eventManager this.
Proof.
  intros Hwf. destruct started; [done |].
  destruct (StdString.empty (logPath this)) eqn:Hpath.
  { by rewrite Start_fails_without_effect by (by left). }
  destruct (common_exists fs (dbPath this)) eqn:Hdb.
  2:{ by rewrite Start_fails_without_effect by (by right). }
  cbv zeta. rewrite (Start_unfold_opened fs this ecm Hpath Hdb). simpl.
  destruct (ECM.EntityByComponents _ CWorld) as [w|]; simpl; [| eauto].
  match goal with
  | |- context [ReplaceResourceURIs fs ?t ?e] =>
      destruct (ReplaceResourceURIs_frame fs t e) as [Hthis _];
      destruct (ReplaceResourceURIs fs t e) as [this2 ecm2]
  end.
  simpl in *. unfold sameButFlag in Hthis. rewrite Hthis. simpl. eauto.
Qed.

(** X13. [Configure] leaves the instance with the event manager it was
    given and, whenever the instance is started afterwards, with a log
    handle, on every path: whether the path is a directory or an archive,
    whether extraction or [Start] fails or succeeds, whether another instance
    is started already. *)
Theorem Configure_leaves_instance_well_formed (fs : FS) (started : bool) this
    (playback_path : string) (_eventMgr : N) ecm :
  wellFormed this →
  let r := Configure fs started this playback_path _eventMgr ecm in
  eventManager (cr_this r) = Some _eventMgr ∧ wellFormed (cr_this r).
Proof.
  intros Hwf.
  assert (∀ fs' this' ecm',
            (instStarted this' = true → is_Some (log this')) →
            eventManager this' = Some _eventMgr →
            let r := startUnlessStarted fs' started this' ecm' in
            eventManager (cr_this r) = Some _eventMgr ∧
            (instStarted (cr_this r) = true → is_Some (log (cr_this r)))) as Hstart.
  { intros fs' this' ecm' Hlog Hem. unfold startUnlessStarted.
    destruct (negb started); simpl; [| done].
    destruct (Start_keeps_wellFormed fs' started this' ecm' Hlog) as [Hl He].
    split; [congruence | done]. }
  assert (∀ this', eventManager this' = Some _eventMgr →
            (instStarted this' = true → is_Some (log this')) → wellFormed this') as Hmk.
  { intros this' Hem Hlog Hst. rewrite Hem. eauto. }
  assert (instStarted this = true → is_Some (log this)) as Hlog0
    by (intros Hst; by destruct (Hwf Hst)).
  cbv zeta. unfold Configure.
  set (this0 := set_logPath _ _).
  assert (eventManager this0 = Some _eventMgr) as Hem0 by done.
  assert (instStarted this0 = true → is_Some (log this0)) as Hl0 by done.
  destruct (common_isFile fs (logPath this0)).
  2:{ destruct (Hstart fs this0 (ECM.SetEntityCreateOffset ecm (MAX_I64 / 2)) Hl0 Hem0).
      split; [done | by apply Hmk]. }
  destruct (negb _); [split; [done | by apply Hmk] |].
  pose proof (ExtractStateAndResources_keeps fs this0) as Hx.
  destruct (ExtractStateAndResources fs this0) as [[ok fs'] this1].
  simpl in Hx. destruct Hx as (Hlog & Hst & Hem).
  assert (eventManager this1 = Some _eventMgr) as Hem1 by congruence.
  assert (instStarted this1 = true → is_Some (log this1)) as Hl1.
  { rewrite Hst, Hlog. exact Hl0. }
  destruct ok; simpl.
  - destruct (Hstart fs' this1 (ECM.SetEntityCreateOffset ecm (MAX_I64 / 2)) Hl1 Hem1).
    split; [done | by apply Hmk].
  - split; [done | by apply Hmk].
Qed.

(** X14. A jump back in time whose window holds no diff record asks for the
    removal of every entity of the world: nothing in the window takes an
    entity off the list, which starts with all of them.  No entity is
    added. *)
Theorem rewind_over_no_records_removes_everything (fs : FS) (_info : UpdateInfo)
    this ecm (lg : Log) (em : N) :
  simTime _info < tPrev _info →
  instStarted this = true →
  log this = Some lg →
  eventManager this = Some em →
  batchRecords (Log_QueryMessages lg 0 (simTime _info)) = [] →
  ∃ r, Update fs _info this ecm = Some r ∧
       ecm_toRemove (ur_ecm r) = ecm_entities ecm ∪ ecm_toRemove ecm ∧
       ecm_entities (ur_ecm r) = ecm_entities ecm.
Proof.
  intros Hback Hstarted Hlog Hem Hnone.
  assert (dt _info ≠ 0) as Hdt by (unfold tPrev in Hback; lia).
  pose proof (seekWindow_backward _info ecm Hback) as Hw.
  unfold ECM.Entities_Vertices in Hw.
  destruct (Update_started fs _info this ecm lg em Hdt Hstarted Hlog Hem) as [Hup _].
  rewrite Hw in Hup. simpl in Hup.
  set (q := Log_QueryMessages lg 0 (simTime _info)) in *.
  destruct (playBatch_spec fs true q (set_batch this q) ecm (ecm_entities ecm))
    as (_ & Hents & Hrem & Hset).
  set (b := foldl (playMessage fs true) (set_batch this q, ecm, ecm_entities ecm) q) in *.
  destruct (particleEmitterPass_world (ECM.Each b.1.2 TParticleEmitterCmd) b.1.1 b.1.2)
    as (Hpe & _ & Hpr).
  fold (detectChanges b.1.1 b.1.2) in Hpe, Hpr.
  rewrite Hnone in Hents, Hrem, Hset. simpl in Hset.
  eexists. split; [exact Hup |]. simpl.
  rewrite removeEntities_spec. simpl.
  rewrite Hpe, Hpr, Hents, Hrem, Hset.
  unfold createdBy, removedBy. rewrite filter_nil. simpl.
  by rewrite !(left_id_L ∅ (∪)).
Qed.

End Safety.

(** ** Configure, extraction and the destructor *)

Section ConfigureFacts.

Context `{C : Collaborators}.

Implicit Types (this : LogPlaybackPrivate) (ecm : EntityComponentManager).

Lemma find_last_of_app (stem ext : string) (c : ascii) :
  StdString.find_last_of ext c = None →
  StdString.find_last_of (stem +:+ String c ext) c = Some (String.length stem).
Proof.
  intros Hext. induction stem as [|d stem IH].
  - change (StdString.find_last_of (String c ext) c = Some 0%nat).
    simpl. by rewrite Hext, Ascii.eqb_refl.
  - change (StdString.find_last_of (String d (stem +:+ String c ext)) c
            = Some (S (String.length stem))).
    simpl. by rewrite IH.
Qed.

Lemma string_app_assoc (a b c : string) : (a +:+ b) +:+ c = a +:+ b +:+ c.
Proof.
  induction a as [|d a IH]; [done |].
  change (String d ((a +:+ b) +:+ c) = String d (a +:+ b +:+ c)). by rewrite IH.
Qed.

Lemma substr_to_stem (stem rest : string) :
  substr_to (stem +:+ rest) (Some (String.length stem)) = stem.
Proof.
  unfold substr_to, StdString.size. rewrite string_length_app.
  replace (Nat.min _ _) with (String.length stem) by lia.
  apply substring_0_app.
Qed.

Lemma ExtractStateAndResources_names (fs : FS) this (stem ext : string) :
  logPath this = stem +:+ "." +:+ ext →
  StdString.find_last_of ext "." = None →
  let r := ExtractStateAndResources fs this in
  let dest := common_uniqueDirectoryPath fs (stem +:+ "_extracted") in
  extDest r.2 = dest ∧
  r.1 = Zip_Extract fs (logPath this) dest ∧
  logPath r.2 =
    (if r.1.1 then common_joinPaths dest (common_basename stem) else logPath this) ∧
  log r.2 = log this ∧ batch r.2 = batch this ∧ instStarted r.2 = instStarted this.
Proof.
  intros Hpath Hext. unfold ExtractStateAndResources. simpl.
  change ("." +:+ ext) with (String "." ext) in Hpath.
  rewrite !Hpath, (find_last_of_app stem ext "." Hext). simpl.
  rewrite !substr_to_stem.
  destruct (Zip_Extract fs _ _) as [[] fs'] eqn:Hz; simpl;
    rewrite ?Hpath, ?substr_to_stem; rewrite ?Hpath in Hz; rewrite ?Hz; done.
Qed.

(** X15. For an archive path [stem.ext] whose extension holds no further
    dot, [ExtractStateAndResources] extracts the archive into the unique
    directory made from [stem_extracted], which it records as the extraction
    directory whether extraction succeeds or not; on success the log path
    becomes the base name of [stem] inside that directory, on failure the log
    path stays the archive path. *)
Theorem extraction_directory_is_named_after_the_archive (fs : FS) this
    (stem ext : string) :
  logPath this = stem +:+ "." +:+ ext →
  StdString.find_last_of ext "." = None →
  let r := ExtractStateAndResources fs this in
  let dest := common_uniqueDirectoryPath fs (stem +:+ "_extracted") in
  extDest r.2 = dest ∧
  r.1 = Zip_Extract fs (logPath this) dest ∧
  logPath r.2 =
    (if r.1.1 then common_joinPaths dest (common_basename stem) else logPath this).
Proof.
  intros Hpath Hext.
  destruct (ExtractStateAndResources_names fs this stem ext Hpath Hext)
    as (H1 & H2 & H3 & _).
  done.
Qed.

(** X16. When the playback path is a file [stem.ext], [Configure] starts
    nothing unless the lower-cased extension is [zip] and the archive can be
    extracted: the process-wide flag, the started flag of the instance, its
    log handle and its batch are as before and the world is touched in the
    entity offset only.  With another extension the filesystem and the
    extraction directory are left alone as well. *)
Theorem Configure_starts_nothing_without_an_archive (fs : FS) (started : bool) this
    (playback_path : string) (_eventMgr : N) ecm (stem ext : string) :
  common_absPath playback_path = stem +:+ "." +:+ ext →
  StdString.find_last_of ext "." = None →
  common_isFile fs (common_absPath playback_path) = true →
  common_lowercase ext ≠ "zip" ∨
    (Zip_Extract fs (common_absPath playback_path)
       (common_uniqueDirectoryPath fs (stem +:+ "_extracted"))).1 = false →
  let r := Configure fs started this playback_path _eventMgr ecm in
  cr_started r = started ∧
  instStarted (cr_this r) = instStarted this ∧
  log (cr_this r) = log this ∧
  batch (cr_this r) = batch this ∧
  cr_ecm r = ECM.SetEntityCreateOffset ecm (MAX_I64 / 2) ∧
  (common_lowercase ext ≠ "zip" →
   cr_fs r = fs ∧ extDest (cr_this r) = extDest this).
Proof.
  intros Hpath Hext Hfile Hwhy. cbv zeta. unfold Configure.
  set (this0 := set_logPath _ _).
  assert (logPath this0 = stem +:+ "." +:+ ext) as Hpath0 by done.
  rewrite Hpath0, <- Hpath, Hfile, Hpath.
  change ("." +:+ ext) with (String "." ext).
  rewrite (find_last_of_app stem ext "." Hext).
  change (String "." ext) with ("." +:+ ext).
  assert (StdString.substr (stem +:+ "." +:+ ext) (S (String.length stem)) = ext) as ->.
  { rewrite <- string_app_assoc.
    replace (S (String.length stem)) with (StdString.size (stem +:+ "."))
      by (unfold StdString.size; rewrite string_length_app; simpl; lia).
    apply substr_app. }
  destruct (String.eqb (common_lowercase ext) "zip") eqn:Hzip; simpl.
  2:{ do 5 (split; [done |]). done. }
  apply String.eqb_eq in Hzip.
  destruct Hwhy as [Hne | Hfail]; [done |].
  destruct (ExtractStateAndResources_names fs this0 stem ext Hpath0 Hext)
    as (_ & Hcall & _ & Hlog & Hbatch & Hst).
  destruct (ExtractStateAndResources fs this0) as [[ok fs'] this1]. simpl in *.
  change (logPath this0) with (common_absPath playback_path) in Hcall.
  rewrite <- Hcall in Hfail. simpl in Hfail. subst ok. simpl.
  do 5 (split; [done |]). intros Hne. by rewrite Hzip in Hne.
Qed.

Lemma Configure_while_started (fs : FS) this (playback_path : string)
    (_eventMgr : N) ecm :
  let r := Configure fs true this playback_path _eventMgr ecm in
  cr_started r = true ∧ instStarted (cr_this r) = instStarted this.
Proof.
  cbv zeta. unfold Configure.
  set (this0 := set_logPath _ _).
  destruct (common_isFile fs (logPath this0)); [| done].
  destruct (negb _); [done |].
  pose proof (ExtractStateAndResources_keeps fs this0) as Hx.
  destruct (ExtractStateAndResources fs this0) as [[ok fs'] this1].
  simpl in Hx. destruct Hx as (_ & Hst & _).
  by destruct ok.
Qed.

(** X17. The destructor releases the process-wide flag only for an instance
    that was started.  So destroying an instance that [Configure] turned down
    because another one was started leaves the flag set, while destroying a
    started instance clears it; the extraction directory is removed exactly
    when one was recorded. *)
Theorem destructor_releases_only_its_own_session (fs : FS) (started : bool)
    this (playback_path : string) (_eventMgr : N) ecm :
  (instStarted this = false →
   let r := Configure fs true this playback_path _eventMgr ecm in
   (Destroy (cr_fs r) (cr_started r) (cr_this r)).2 = true) ∧
  (instStarted this = true → (Destroy fs started this).2 = false) ∧
  (instStarted this = false → (Destroy fs started this).2 = started) ∧
  (Destroy fs started this).1 =
    (if StdString.empty (extDest this) then fs else common_removeAll fs (extDest this)).
Proof.
  split; [| split; [| split]].
  - intros Hst.
    destruct (Configure_while_started fs this playback_path _eventMgr ecm) as [H1 H2].
    cbv zeta. unfold Destroy. simpl. by rewrite H2, Hst, H1.
  - intros Hst. unfold Destroy. simpl. by rewrite Hst.
  - intros Hst. unfold Destroy. simpl. by rewrite Hst.
  - unfold Destroy. simpl. by destruct (StdString.empty (extDest this)).
Qed.

End ConfigureFacts.

(** ** The further properties at work *)

Lemma Start_fails_without_effect_witness :
  Start (C := Simple.collaborators) Simple.demoFS false LogPlaybackPrivate_init
    Simple.emptyECM
  = mkStartResult false false LogPlaybackPrivate_init Simple.emptyECM.
Proof.
  apply (Start_fails_without_effect (C := Simple.collaborators)).
  left. reflexivity.
Defined.

Lemma Start_without_world_entity_witness :
  let r := Start (C := Simple.collaborators) Simple.noWorldFS false Simple.pathSet
             Simple.emptyECM in
  sr_ret r = false ∧ sr_started r = false ∧
  instStarted (sr_this r) = false ∧
  log (sr_this r) = Some Simple.noWorldLog ∧
  2%N ∈ ecm_entities (sr_ecm r).
Proof.
  destruct (Start_without_world_entity (C := Simple.collaborators) Simple.noWorldFS
              Simple.pathSet Simple.emptyECM)
    as (Hret & Hflag & Hst & Hlog & _ & Hecm); [reflexivity | reflexivity | reflexivity |].
  cbv zeta. rewrite Hret, Hflag, Hst, Hlog, Hecm.
  repeat (split; [reflexivity |]). vm_compute. set_solver.
Defined.


Lemma seed_is_the_first_state_message_witness :
  seedInitialState Simple.emptyECM (Simple.noWorldLog).*2 =
    ECM.SetState Simple.emptyECM [Simple.meshRecord 2%N "/meshes/a.dae"].
Proof.
  destruct (seed_is_the_first_state_message Simple.emptyECM
              [mkMessage "gz.msgs.StringMsg" (StringData "sdf")]
              [Simple.stateMsg [mkSerializedEntity 1%N [Recognized CWorld] false]]
              (Simple.stateMsg [Simple.meshRecord 2%N "/meshes/a.dae"]))
    as [Hfirst _].
  { repeat constructor. }
  apply Hfirst. reflexivity.
Defined.

Lemma other_uris_are_left_alone_witness :
  PrependLogPath (C := Simple.collaborators) Simple.demoFS Simple.demoThis
    "model://box/meshes/box.dae" = ("model://box/meshes/box.dae", Simple.demoThis).
Proof.
  apply (other_uris_are_left_alone (C := Simple.collaborators)); [reflexivity |].
  intros Heq. discriminate Heq.
Defined.

Lemma bare_path_under_log_path_is_joined_again_witness :
  common_exists (Collaborators := Simple.collaborators) Simple.demoFS
    "/log/meshes/a.dae" = true ∧
  PrependLogPath (C := Simple.collaborators) Simple.demoFS Simple.demoThis
    "/log/meshes/a.dae"
  = ("/log/meshes/a.dae", set_doReplaceResourceURIs Simple.demoThis false).
Proof.
  split; [reflexivity |].
  apply (bare_path_under_log_path_is_joined_again (C := Simple.collaborators)
           Simple.demoFS Simple.demoThis "/meshes/a.dae"); reflexivity.
Defined.

Lemma Update_writes_three_members_witness :
  ∃ r, Update (C := Simple.collaborators) Simple.demoFS Simple.backInfo
         Simple.demoThis Simple.demoECM = Some r ∧
       logPath (ur_this r) = "/log" ∧ instStarted (ur_this r) = true ∧
       printedEnd (ur_this r) = false.
Proof.
  destruct (Update_signals (C := Simple.collaborators) Simple.demoFS Simple.backInfo
              Simple.demoThis Simple.demoECM Simple.demoLog 7%N)
    as (r & Hup & _); [done | done | done | done |].
  exists r. split; [exact Hup |].
  destruct (Update_writes_three_members (C := Simple.collaborators) Simple.demoFS
              Simple.backInfo Simple.demoThis Simple.demoECM r Hup) as [Hthis _].
  rewrite Hthis. done.
Defined.


Lemma steps_never_fail_witness :
  ∃ this' ecm' events,
    steps (C := Simple.collaborators) Simple.demoFS Simple.demoThis Simple.demoECM
      Simple.threeSteps = Some (this', ecm', events) ∧
    instStarted this' = true.
Proof.
  destruct (steps_never_fail (C := Simple.collaborators) Simple.demoFS
              Simple.threeSteps Simple.demoThis Simple.demoECM)
    as (this' & ecm' & events & Hsteps & _ & Hst).
  { intros _. split; eexists; reflexivity. }
  exists this', ecm', events. split; [exact Hsteps | by rewrite Hst].
Defined.

Lemma Configure_leaves_instance_well_formed_witness :
  eventManager Simple.demoThis = Some 7%N ∧ is_Some (log Simple.demoThis).
Proof.
  destruct (Configure_leaves_instance_well_formed (C := Simple.collaborators)
              Simple.demoFS false LogPlaybackPrivate_init "/log" 7%N Simple.emptyECM)
    as [Hem Hwf].
  { intros Hst. discriminate Hst. }
  split; [exact Hem |]. by destruct (Hwf eq_refl).
Defined.

Lemma rewind_over_no_records_removes_everything_witness :
  ∃ r, Update (C := Simple.collaborators) Simple.demoFS Simple.toZeroInfo
         Simple.demoThis Simple.demoECM = Some r ∧
       ecm_toRemove (ur_ecm r) = ecm_entities Simple.demoECM ∪ ecm_toRemove Simple.demoECM ∧
       1%N ∈ ecm_toRemove (ur_ecm r).
Proof.
  destruct (rewind_over_no_records_removes_everything (C := Simple.collaborators)
              Simple.demoFS Simple.toZeroInfo Simple.demoThis Simple.demoECM
              Simple.demoLog 7%N)
    as (r & Hup & Hrem & _); [done | done | done | done | reflexivity |].
  exists r. split; [exact Hup |]. split; [exact Hrem |].
  rewrite Hrem. vm_compute. set_solver.
Defined.

Lemma extraction_directory_is_named_after_the_archive_witness :
  let r := ExtractStateAndResources (C := Simple.archiveCollaborators) Simple.archiveFS
             (set_logPath LogPlaybackPrivate_init "/rec/good.zip") in
  extDest r.2 = "/rec/good_extracted" ∧
  logPath r.2 = "/rec/good_extracted/rec/good".
Proof.
  destruct (extraction_directory_is_named_after_the_archive
              (C := Simple.archiveCollaborators) Simple.archiveFS
              (set_logPath LogPlaybackPrivate_init "/rec/good.zip") "/rec/good" "zip")
    as (Hdest & Hcall & Hpath); [reflexivity | reflexivity |].
  cbv zeta. rewrite Hdest, Hpath, Hcall. split; reflexivity.
Defined.

Lemma Configure_starts_nothing_without_an_archive_witness :
  let r := Configure (C := Simple.archiveCollaborators) Simple.archiveFS false
             LogPlaybackPrivate_init "/rec/bad.zip" 7%N Simple.emptyECM in
  cr_started r = false ∧ instStarted (cr_this r) = false ∧ log (cr_this r) = None.
Proof.
  destruct (Configure_starts_nothing_without_an_archive
              (C := Simple.archiveCollaborators) Simple.archiveFS false
              LogPlaybackPrivate_init "/rec/bad.zip" 7%N Simple.emptyECM "/rec/bad" "zip")
    as (Hflag & Hst & Hlog & _); [reflexivity | reflexivity | reflexivity | |].
  { right. reflexivity. }
  cbv zeta. by rewrite Hflag, Hst, Hlog.
Defined.

Lemma destructor_releases_only_its_own_session_witness :
  let second := Configure (C := Simple.collaborators) Simple.demoFS true
                  LogPlaybackPrivate_init "/log" 8%N Simple.demoECM in
  (Destroy (C := Simple.collaborators) (cr_fs second) (cr_started second)
     (cr_this second)).2 = true ∧
  (Destroy (C := Simple.collaborators) Simple.demoFS true Simple.demoThis).2 = false.
Proof.
  destruct (destructor_releases_only_its_own_session (C := Simple.collaborators)
              Simple.demoFS true LogPlaybackPrivate_init "/log" 8%N Simple.demoECM)
    as (Hrejected & _).
  destruct (destructor_releases_only_its_own_session (C := Simple.collaborators)
              Simple.demoFS true Simple.demoThis "/log" 8%N Simple.demoECM)
    as (_ & Hown & _).
  split; [apply Hrejected; reflexivity | apply Hown; reflexivity].
Defined.

(** ** The cache of commands and the cause of the fallback *)

Section CacheAndFallback.

Context `{C : Collaborators}.

Implicit Types (this : LogPlaybackPrivate) (ecm : EntityComponentManager).

(** X18. After a step of a started instance with a non-zero time delta the
    cache of previous commands agrees with the world: for every entity that
    holds a particle-emitter command, the cache holds the value of that
    command. *)
Theorem cache_agrees_with_world_after_step (fs : FS) (_info : UpdateInfo) this ecm
    (r : UpdateResult) (e : Entity) (v : bool) :
  Update fs _info this ecm = Some r →
  dt _info ≠ 0 →
  instStarted this = true →
  ecm_components (ur_ecm r) !! (e, TParticleEmitterCmd) = Some (CParticleEmitterCmd v) →
  prevParticleEmitterCmds (ur_this r) !! e = Some v.
Proof.
  intros Hup Hdt Hst Hv.
  destruct (Update_cases fs _info this ecm r Hup)
    as [-> | (lg & _ & _ & _ & Hthis & Hecm)].
  { unfold Update in Hup. rewrite (proj2 (Z.eqb_neq _ _) Hdt), Hst in Hup. simpl in Hup.
    destruct (log this) as [lg|]; [| done].
    destruct (seekWindow _info ecm) as [[[seekRewind s] startTime] endTime].
    unfold playWindow in Hup. simpl in Hup.
    destruct (foldl (playMessage fs seekRewind) _ _) as [[this1 ecm1] s1] eqn:Hb.
    pose proof (detectChanges_spec this1 ecm1 e v) as Hd.
    pose proof (particleEmitterPass_world (ECM.Each ecm1 TParticleEmitterCmd) this1 ecm1)
      as (_ & Hcomp & _).
    unfold detectChanges in Hd.
    destruct (foldl particleEmitterCallback _ _) as [this2 ecm2]. simpl in *.
    assert (this2 = this ∧ ecm_components ecm2 = ecm_components ecm) as [-> Hc].
    { repeat case_match; simplify_eq; by rewrite removeEntities_spec. }
    apply Hd. by rewrite <- Hcomp, Hc. }
  simpl in Hthis, Hecm.
  set (w := seekWindow _info ecm) in *.
  set (q := Log_QueryMessages lg w.1.2 w.2) in *.
  set (b := foldl (playMessage fs w.1.1.1) (set_batch this q, ecm, w.1.1.2) q) in *.
  destruct (particleEmitterPass_world (ECM.Each b.1.2 TParticleEmitterCmd) b.1.1 b.1.2)
    as (_ & Hcomp & _).
  fold (detectChanges b.1.1 b.1.2) in Hcomp.
  rewrite Hthis. apply (detectChanges_spec b.1.1 b.1.2 e v).
  rewrite Hecm, removeEntities_spec in Hv. simpl in Hv. by rewrite <- Hcomp.
Qed.

Lemma resolves_iff_exists (fs : FS) this (t : ComponentTypeId) (c : ComponentValue) :
  doReplaceResourceURIs this = true →
  resolves fs this t c ↔
    ∀ u, uriOf t c = Some u →
         shouldPrepend (logPath this) u = true →
         common_exists fs (pathPrepended (logPath this) u) = true.
Proof.
  intros Hon. unfold resolves. split; intros Hall u Hu.
  - intros Hneeds. specialize (Hall u Hu).
    rewrite PrependLogPath_unfold, Hon, Hneeds in Hall. simpl in Hall.
    destruct (common_exists fs _); [done |]. simpl in Hall.
    rewrite <- Hall in Hon. simpl in Hon. discriminate Hon.
  - rewrite PrependLogPath_unfold, Hon. simpl.
    destruct (shouldPrepend (logPath this) u) eqn:Hneeds; [| done].
    by rewrite (Hall u Hu Hneeds).
Qed.

(** X19. A pass of [ReplaceResourceURIs] with rewriting on leaves it on
    exactly when no resource is missing: for every mesh or material URI of
    the world that is to be prepended, the log path joined with the stripped
    URI exists.  In that case the pass rewrites every component on its own,
    whatever the order of the visit, and leaves the instance as it is. *)
Theorem rewriting_stays_on_iff_no_resource_is_missing (fs : FS) this ecm :
  doReplaceResourceURIs this = true →
  (doReplaceResourceURIs (ReplaceResourceURIs fs this ecm).1 = true ↔
   ∀ k c u, ecm_components ecm !! k = Some c →
            uriOf k.2 c = Some u →
            shouldPrepend (logPath this) u = true →
            common_exists fs (pathPrepended (logPath this) u) = true) ∧
  (doReplaceResourceURIs (ReplaceResourceURIs fs this ecm).1 = true →
   ReplaceResourceURIs fs this ecm =
     (this, ECM.set_components ecm (rewrittenMap fs this (ecm_components ecm)))).
Proof.
  intros Hon.
  assert (allResolve fs this (ecm_components ecm) ↔
          ∀ k c u, ecm_components ecm !! k = Some c →
                   uriOf k.2 c = Some u →
                   shouldPrepend (logPath this) u = true →
                   common_exists fs (pathPrepended (logPath this) u) = true) as Hiff.
  { unfold allResolve. split.
    - intros Hall k c u Hl. by apply (resolves_iff_exists fs this k.2 c Hon), (Hall k c).
    - intros Hall k c Hl. apply (resolves_iff_exists fs this k.2 c Hon).
      intros u. by apply (Hall k c u). }
  split; [rewrite <- Hiff; split |].
  - by apply ReplaceResourceURIs_enabled.
  - intros Hall. by rewrite ReplaceResourceURIs_resolves.
  - intros Hstill. apply ReplaceResourceURIs_resolves; [done |].
    by apply ReplaceResourceURIs_enabled.
Qed.

End CacheAndFallback.

Lemma cache_agrees_with_world_after_step_witness :
  prevParticleEmitterCmds (cr_this Simple.emitterConfigured) !! 3%N = None ∧
  ∃ r, Update (C := Simple.collaborators) Simple.emitterFS Simple.firstInfo
         (cr_this Simple.emitterConfigured) (cr_ecm Simple.emitterConfigured) = Some r ∧
       ecm_components (ur_ecm r) !! (3%N, TParticleEmitterCmd)
         = Some (CParticleEmitterCmd true) ∧
       prevParticleEmitterCmds (ur_this r) !! 3%N = Some true.
Proof.
  split; [reflexivity |].
  destruct (Update_started (C := Simple.collaborators) Simple.emitterFS Simple.firstInfo
              (cr_this Simple.emitterConfigured) (cr_ecm Simple.emitterConfigured)
              Simple.emitterLog 7%N) as [Hup _]; [done | done | done | done |].
  eexists. split; [exact Hup |].
  match goal with
  | |- ?A ∧ _ => assert A as Hcmd by (vm_compute; reflexivity)
  end.
  split; [exact Hcmd |].
  exact (cache_agrees_with_world_after_step (C := Simple.collaborators) Simple.emitterFS
           Simple.firstInfo (cr_this Simple.emitterConfigured)
           (cr_ecm Simple.emitterConfigured) _ 3%N true Hup
           ltac:(done) ltac:(done) Hcmd).
Defined.

Lemma rewriting_stays_on_iff_no_resource_is_missing_witness :
  doReplaceResourceURIs
    (ReplaceResourceURIs (C := Simple.collaborators) Simple.demoFS Simple.demoThis
       (ECM.SetState Simple.demoECM [Simple.meshRecord 4%N "/meshes/b.dae"])).1 = false.
Proof.
  destruct (rewriting_stays_on_iff_no_resource_is_missing (C := Simple.collaborators)
              Simple.demoFS Simple.demoThis
              (ECM.SetState Simple.demoECM [Simple.meshRecord 4%N "/meshes/b.dae"]))
    as [[Honly _] _]; [reflexivity |].
  destruct (doReplaceResourceURIs _) eqn:Hflag; [| reflexivity].
  specialize (Honly eq_refl (4%N, TGeometry)
                (CGeometry (MeshGeometry (mkMesh "/meshes/b.dae" ""))) "/meshes/b.dae"
                eq_refl eq_refl eq_refl).
  discriminate Honly.
Defined.
